(** * sonarcs-importer: rule reconciliation and coding-standard import

    A shallow embedding of the scripts of the repository that read the
    XML export and reconcile it with the remote platform
    ([codacy_sonar_importer.py], [check_missing_rules.py],
    [get_default_patterns.py], [verify_coding_standard.py]) and the
    properties their specification states about them.

    Conventions of the embedding:
    - Python [str] is [string]; a value that may be [None] (the text of an
      XML element, a JSON field read with [.get]) is an [option string];
    - a Python [set] of strings is a [gset string], a [list] is a [list];
    - an HTTP call either returns the decoded body or raises
      [requests.exceptions.RequestException] ([Failed]);
    - the remote platform is an oracle: the answer to a request may depend
      on the request and on how many requests were issued before it. *)

From stdpp Require Import gmap strings list sorting pretty.
From Stdlib Require Import QArith.
Set Warnings "-register-all".
Open Scope string_scope.
Open Scope nat_scope.
Open Scope list_scope.

(** ** Python strings *)

Module Py.

(** [s.startswith(p)] *)
Definition startswith (s p : string) : bool := String.prefix p s.

(** [s.replace(old, new)] for a non-empty [old] (every call of the
    repository passes ['SonarCSharp_']): the occurrences of [old] are
    found from left to right, without overlap, and each is replaced.
    [skip] counts the characters of a matched occurrence still to drop. *)
Fixpoint replace_go (old new : string) (skip : nat) (s : string) : string :=
  match s with
  | EmptyString => EmptyString
  | String c s' =>
      match skip with
      | S n => replace_go old new n s'
      | O =>
          if String.prefix old s
          then new +:+ replace_go old new (String.length old - 1) s'
          else String c (replace_go old new 0 s')
      end
  end.

Definition replace (s old new : string) : string := replace_go old new 0 s.

(** Truth value of an optional string: [None] and [''] are false. *)
Definition truthy (o : option string) : bool :=
  match o with
  | None => false
  | Some s => negb (String.eqb s "")
  end.

(** [f"{x}"] for a value that is a string or [None]. *)
Definition str (o : option string) : string := default "None" o.

(** [c.lower()] on the ASCII letters. *)
Definition lower_ascii (c : Ascii.ascii) : Ascii.ascii :=
  let n := Ascii.nat_of_ascii c in
  if (65 <=? n) && (n <=? 90) then Ascii.ascii_of_nat (n + 32) else c.

Fixpoint lower (s : string) : string :=
  match s with
  | EmptyString => EmptyString
  | String c s' => String (lower_ascii c) (lower s')
  end.

(** The order [sorted] uses on strings, and [sorted] itself. *)
Definition str_le (a b : string) : Prop := Is_true (String.leb a b).

#[global] Instance str_le_dec a b : Decision (str_le a b).
Proof. unfold str_le. apply _. Defined.

Definition sorted (l : list string) : list string := merge_sort str_le l.

End Py.

(** The prefix every pattern id of the SonarC# tool carries. *)
Definition PREFIX : string := "SonarCSharp_".

(** ** XML documents, as [ElementTree] presents them *)

Module Xml.

(** An element: its tag, its text ([None] when the element has none) and
    its children in document order. *)
Inductive element : Type :=
| Element (tag : string) (text : option string) (children : list element).

Definition tag (e : element) : string := let 'Element t _ _ := e in t.
Definition text (e : element) : option string := let 'Element _ x _ := e in x.
Definition children (e : element) : list element := let 'Element _ _ cs := e in cs.

(** [e.iter()]: the element, then its descendants, in document order. *)
Fixpoint iter (e : element) : list element :=
  match e with
  | Element _ _ cs =>
      e :: (cs ≫= iter)
  end.

(** The elements strictly below [e]. *)
Definition descendants (e : element) : list element :=
  children e ≫= iter.

(** [e.findall('.//t')]: every descendant of [e] with tag [t]; [e] itself
    is never among them. *)
Definition findall_descendants (t : string) (e : element) : list element :=
  filter (λ d, tag d = t) (descendants e).

(** [e.findall('t')]: the children of [e] with tag [t]. *)
Definition findall (t : string) (e : element) : list element :=
  filter (λ d, tag d = t) (children e).

(** [e.find('t')]: the first child of [e] with tag [t], or [None]. *)
Definition find (t : string) (e : element) : option element :=
  head (findall t e).

(** The relational reading of the same notions. *)
Inductive below : element → element → Prop :=
| below_child c e : c ∈ children e → below c e
| below_deeper d c e : below d c → c ∈ children e → below d e.

(** [c] is the first child of [e] with tag [t]. *)
Definition first_child (t : string) (e c : element) : Prop :=
  ∃ before after,
    children e = before ++ c :: after ∧ tag c = t ∧
    Forall (λ d, tag d ≠ t) before.

End Xml.

(** ** The remote API, as the scripts see it *)

(** The outcome of one HTTP call followed by [raise_for_status] and
    [json]: the decoded body, or a [RequestException]. *)
Inductive http (A : Type) : Type :=
| Ok (body : A)
| Failed.
Arguments Ok {A} body.
Arguments Failed {A}.

(** One entry of a pattern listing: its ['id'] field, a string, or [None]
    when the entry has no such field, and the truth value of its
    ['enabled'] field (false when absent). The ids of the platform are
    strings: an entry whose id is the JSON null is not represented. *)
Record pattern : Type := Pattern {
  pattern_id : option string;
  pattern_enabled : bool
}.

(** One page of the patterns endpoint: ['data'] and
    ['pagination']['cursor'] ([None] when absent). *)
Record page : Type := Page {
  data : list pattern;
  cursor : option string
}.

(** ** Rule keys of the XML export (the three stand-alone scripts) *)

(** The loop of [get_xml_rules]: the text of the first [<key>] child of
    every [<rule>] below the root, when there is such a child and it has
    a text. *)
Definition xml_rule_keys (root : Xml.element) : list string :=
  omap (λ rule, Xml.find "key" rule ≫= Xml.text)
       (Xml.findall_descendants "rule" root).

(** The rule key a pattern id stands for: the id must start with the
    prefix, and the key is [pattern_id.replace('SonarCSharp_', '')]. *)
Definition rule_key_of (pattern_id : string) : option string :=
  if Py.startswith pattern_id PREFIX
  then Some (Py.replace pattern_id PREFIX "")
  else None.

(** What the comment of the source asks for: the id without its leading
    prefix, the rest unchanged. *)
Definition strip_prefix (pattern_id : string) : option string :=
  if Py.startswith pattern_id PREFIX
  then Some (String.substring (String.length PREFIX)
               (String.length pattern_id - String.length PREFIX) pattern_id)
  else None.

(** What both reconciling scripts print in their summary. *)
Record report : Type := Report {
  xml_total : nat;               (* len(xml_rules) *)
  remote_total : nat;            (* len(codacy_patterns) *)
  missing : gset string;         (* set(xml_rules) - set(codacy_patterns) *)
  extra : gset string;           (* set(codacy_patterns) - set(xml_rules) *)
  matching : gset string         (* set(xml_rules) & set(codacy_patterns) *)
}.

Definition reconcile (xml_rules remote_keys : list string) : report :=
  let xs : gset string := list_to_set xml_rules in
  let cs : gset string := list_to_set remote_keys in
  {| xml_total := length xml_rules;
     remote_total := length remote_keys;
     missing := xs ∖ cs;
     extra := cs ∖ xs;
     matching := xs ∩ cs |}.

Module VerifyCodingStandard.

Definition get_xml_rules (root : Xml.element) : list string :=
  Py.sorted (xml_rule_keys root).

(** [get_enabled_patterns_in_standard]: the rule keys of the enabled
    patterns of the tool configuration; [[]] when the request fails. *)
Definition get_enabled_patterns_in_standard (tool : http (list pattern)) : list string :=
  match tool with
  | Failed => []
  | Ok patterns =>
      Py.sorted
        (omap (λ p, if pattern_enabled p
                    then rule_key_of (default "" (pattern_id p))
                    else None) patterns)
  end.

(** [a / b] on two lengths: [ZeroDivisionError] is [None]. The quotient is
    kept exact; the rounding of the float is not modelled. *)
Definition truediv (a b : nat) : option Q :=
  match b with
  | O => None
  | S _ => Some (Z.of_nat a # Pos.of_nat b)
  end.

(** [success_rate = (len(matching_rules) / len(xml_rules)) * 100] *)
Definition success_rate (r : report) : option Q :=
  q ← truediv (size (matching r)) (xml_total r);
  Some (q * 100)%Q.

(** [main], after the token was read: the summary and the success rate,
    or [None] when the division raises. *)
Definition main (root : Xml.element) (tool : http (list pattern)) : option (report * Q) :=
  let xml_rules := get_xml_rules root in
  let enabled_rules := get_enabled_patterns_in_standard tool in
  let r := reconcile xml_rules enabled_rules in
  rate ← success_rate r;
  Some (r, rate).

End VerifyCodingStandard.

(** ** Programs that talk to the API *)

(** A program issues HTTP calls and prints; the trace keeps the calls,
    each with whether it succeeded, and the lines printed by the failure
    handlers (progress lines are left out). *)
Inductive parameter : Type := NameValue (name value : option string).

(** One entry of the ['patterns'] list of a PATCH payload; ['parameters']
    is [None] when the entry has no such field. *)
Record pattern_config : Type := PatternConfig {
  config_id : string;
  config_enabled : bool;
  config_parameters : option (list parameter)
}.

Inductive request : Type :=
| GetTools
| GetStandards
| PostStandard (name : string)
| GetStandardTools (standard_id : string)
| PatchTool (standard_id tool_uuid : string) (enabled : bool)
    (patterns : list pattern_config)
| GetPatterns (tool_uuid : string) (cursor : option string)
| PostPromote (standard_id : string).

Inductive event : Type :=
| Call (r : request) (ok : bool)
| Log (line : string).

Definition is_call (e : event) : bool :=
  match e with Call _ _ => true | Log _ => false end.

(** The number of HTTP calls in a trace. *)
Definition calls (t : list event) : nat := length (filter is_call t).

(** How a program ends: with a value, through [sys.exit(status)], with an
    exception nobody catches, or never ([Diverge]: the fuel of a loop ran
    out). *)
Inductive result (A : Type) : Type :=
| Done (a : A)
| Exit (status : nat)
| Raise
| Diverge.
Arguments Done {A} a.
Arguments Exit {A} status.
Arguments Raise {A}.
Arguments Diverge {A}.

(** A program: from the number of calls issued so far to its result and
    the events it adds to the trace. *)
Definition M (A : Type) : Type := nat → result A * list event.

Definition ret {A} (a : A) : M A := λ _, (Done a, []).

Definition bind {A B} (m : M A) (f : A → M B) : M B := λ n,
  match m n with
  | (Done a, t) => let '(r, t') := f a (n + calls t) in (r, t ++ t')
  | (Exit s, t) => (Exit s, t)
  | (Raise, t) => (Raise, t)
  | (Diverge, t) => (Diverge, t)
  end.

#[global] Instance M_ret : MRet M := @ret.
#[global] Instance M_bind : MBind M := λ A B f m, bind m f.

Definition print (line : string) : M unit := λ _, (Done tt, [Log line]).
Definition exit {A} (status : nat) : M A := λ _, (Exit status, []).
Definition raise {A} : M A := λ _, (Raise, []).
Definition diverge {A} : M A := λ _, (Diverge, []).

Definition is_ok {A} (h : http A) : bool :=
  match h with Ok _ => true | Failed => false end.

(** One HTTP call: [answer n] is what the platform answers when [n] calls
    were issued before this one. *)
Definition call {A} (r : request) (answer : nat → http A) : M (http A) := λ n,
  (Done (answer n), [Call r (is_ok (answer n))]).

(** [for x in l: body x] *)
Fixpoint for_each {A} (l : list A) (body : A → M unit) : M unit :=
  match l with
  | [] => mret tt
  | x :: l' => body x;; for_each l' body
  end.

(** A tool of the platform: ['name'] and ['uuid'], [None] when absent. *)
Record tool : Type := Tool {
  tool_name : option string;
  tool_uuid : option string
}.

(** The platform. Every answer may depend on the number of calls issued
    before the request. *)
Record api : Type := Api {
  tools_of : nat → http (list tool);
  standards_of : nat → http (list string);
  create_of : nat → string → http string;
  standard_tools_of : nat → string → http (list (option string));
  patch_of : nat → string → string → bool → list pattern_config → http unit;
  patterns_of : nat → string → option string → http page;
  promote_of : nat → string → http unit
}.

(** The uuid of the SonarC# tool, as the scripts spell it. *)
Definition SONAR_UUID : string := "8954dff3-f19c-429c-ac76-c45fa5e73b62".

(** [for pattern in patterns: ... all_patterns.add(k)] where [keep] is the
    test and the key of the loop body. *)
Definition add_page (keep : pattern → option string)
    (all_patterns : gset string) (patterns : list pattern) : gset string :=
  foldl (λ acc p, match keep p with Some k => {[ k ]} ∪ acc | None => acc end)
        all_patterns patterns.

(** The pagination loop of [_get_available_patterns],
    [_get_all_tool_patterns] and [get_all_sonarc_patterns]: the three
    differ in the tool, in [keep] and in the line they print. [fuel]
    bounds the number of pages. *)
Fixpoint paginate (a : api) (uuid : string) (keep : pattern → option string)
    (warning : string) (fuel : nat) (cur : option string)
    (all_patterns : gset string) : M (gset string) :=
  match fuel with
  | O => diverge
  | S fuel' =>
      let params := if Py.truthy cur then cur else None in
      response ← call (GetPatterns uuid params) (λ n, patterns_of a n uuid params);
      match response with
      | Failed => print warning;; mret all_patterns
      | Ok patterns_data =>
          let all_patterns' := add_page keep all_patterns (data patterns_data) in
          if Py.truthy (cursor patterns_data)
          then paginate a uuid keep warning fuel' (cursor patterns_data) all_patterns'
          else mret all_patterns'
      end
  end.

(** [if pattern_id: all_patterns.add(pattern_id)] *)
Definition keep_id (p : pattern) : option string :=
  if Py.truthy (pattern_id p) then pattern_id p else None.

(** [if pattern_id and pattern_id.startswith('SonarCSharp_'): ...] *)
Definition keep_rule_key (p : pattern) : option string :=
  if Py.truthy (pattern_id p) then pattern_id p ≫= rule_key_of else None.

Module GetDefaultPatterns.

Definition get_xml_rules (root : Xml.element) : gset string :=
  list_to_set (xml_rule_keys root).

Definition get_all_sonarc_patterns (a : api) (fuel : nat) : M (gset string) :=
  paginate a SONAR_UUID keep_rule_key "Error retrieving patterns" fuel None ∅.

End GetDefaultPatterns.

Module CheckMissingRules.

Definition get_xml_rules (root : Xml.element) : list string :=
  Py.sorted (xml_rule_keys root).

(** [get_codacy_patterns]: one GET; the cursor of the answer is not read
    and no second request is sent. A failed request is not caught: the
    script stops with the exception. An entry without ['id'] reads as
    [''] ([pattern.get('id', '')]) and is skipped. *)
Definition get_codacy_patterns (a : api) : M (list string) :=
  response ← call (GetPatterns SONAR_UUID None) (λ n, patterns_of a n SONAR_UUID None);
  match response with
  | Failed => raise
  | Ok patterns_data =>
      mret (Py.sorted
              (omap (λ p, rule_key_of (default "" (pattern_id p)))
                    (data patterns_data)))
  end.

(** [main], after the token was read. *)
Definition main (a : api) (root : Xml.element) : M report :=
  let xml_rules := get_xml_rules root in
  codacy_patterns ← get_codacy_patterns a;
  mret (reconcile xml_rules codacy_patterns).

End CheckMissingRules.

(** ** The importer ([codacy_sonar_importer.py]) *)

Module Importer.

(** One entry of [self.sonar_rules]. A dict is an association list in
    insertion order. *)
Record rule : Type := Rule {
  repository_key : option string;
  key : option string;
  priority : option string;
  parameters : list (option string * option string)
}.

(** [d[k] = v] *)
Fixpoint dict_set {K V} `{EqDecision K} (d : list (K * V)) (k : K) (v : V) : list (K * V) :=
  match d with
  | [] => [(k, v)]
  | (k', v') :: d' =>
      if decide (k = k') then (k, v) :: d' else (k', v') :: dict_set d' k v
  end.

(** What [ET.parse] hands to [parse_sonar_xml]. *)
Inductive xml_input : Type :=
| ParseError
| FileNotFound
| Parsed (root : Xml.element).

(** The body of the loop over [root.findall('.//rule')]; [None] is the
    [AttributeError] of [.text] on a child that [find] did not find. *)
Definition parse_parameters (rule : Xml.element) : option (list (option string * option string)) :=
  match Xml.find "parameters" rule with
  | None => Some []
  | Some params_element =>
      foldl (λ acc param,
               d ← acc;
               param_key ← Xml.find "key" param;
               param_value ← Xml.find "value" param;
               Some (dict_set d (Xml.text param_key) (Xml.text param_value)))
            (Some []) (Xml.findall "parameter" params_element)
  end.

Definition parse_rule (rule : Xml.element) : option Importer.rule :=
  repository_key ← Xml.find "repositoryKey" rule;
  key ← Xml.find "key" rule;
  priority ← Xml.find "priority" rule;
  parameters ← parse_parameters rule;
  Some (Rule (Xml.text repository_key) (Xml.text key) (Xml.text priority) parameters).

Definition parse_sonar_xml (xml : xml_input) : M (list rule) :=
  match xml with
  | ParseError => print "Error parsing XML file";; exit 1
  | FileNotFound => print "XML file not found";; exit 1
  | Parsed root =>
      match mapM parse_rule (Xml.findall_descendants "rule" root) with
      | Some rules => mret rules
      | None => raise
      end
  end.

Definition get_tools (a : api) : M (gmap string string) :=
  response ← call GetTools (tools_of a);
  match response with
  | Failed => print "Error retrieving tools";; exit 1
  | Ok tools =>
      mret (foldl (λ (tool_uuids : gmap string string) t,
                     match tool_uuid t with
                     | Some uuid =>
                         if Py.truthy (Some uuid)
                         then <[Py.lower (default "" (tool_name t)) := uuid]> tool_uuids
                         else tool_uuids
                     | None => tool_uuids
                     end) ∅ tools)
  end.

(** [f"{self.standard_name} ({counter})"] *)
Definition numbered (standard_name : string) (counter : nat) : string :=
  standard_name +:+ " (" +:+ pretty counter +:+ ")".

(** [while f"{name} ({counter})" in existing_names: counter += 1] *)
Fixpoint first_free (fuel : nat) (existing_names : gset string)
    (standard_name : string) (counter : nat) : option nat :=
  match fuel with
  | O => None
  | S fuel' =>
      if decide (numbered standard_name counter ∈ existing_names)
      then first_free fuel' existing_names standard_name (S counter)
      else Some counter
  end.

(** The name [_get_unique_standard_name] returns once the names are
    retrieved. The loop gets one more round than there are names. *)
Definition unique_name (standard_name : string) (existing_names : gset string) : option string :=
  if decide (standard_name ∈ existing_names)
  then numbered standard_name
         <$> first_free (S (size existing_names)) existing_names standard_name 1
  else Some standard_name.

Definition _get_unique_standard_name (a : api) (standard_name : string) : M string :=
  response ← call GetStandards (standards_of a);
  match response with
  | Failed =>
      print "Warning: Could not check existing standard names";;
      mret standard_name
  | Ok names =>
      match unique_name standard_name (list_to_set names) with
      | Some unique => mret unique
      | None => diverge
      end
  end.

Definition create_coding_standard (a : api) (standard_name : string) : M string :=
  final_name ← _get_unique_standard_name a standard_name;
  response ← call (PostStandard final_name) (λ n, create_of a n final_name);
  match response with
  | Failed => print "Error creating coding standard";; exit 1
  | Ok standard_id => mret standard_id
  end.

Definition _disable_tool (a : api) (standard_id tool_uuid : string) : M unit :=
  response ← call (PatchTool standard_id tool_uuid false [])
                  (λ n, patch_of a n standard_id tool_uuid false []);
  match response with
  | Failed => print "Warning: Could not disable tool";; mret tt
  | Ok _ => mret tt
  end.

Definition disable_all_tools (a : api) (standard_id : string) : M unit :=
  response ← call (GetStandardTools standard_id)
                  (λ n, standard_tools_of a n standard_id);
  match response with
  | Failed => print "Error retrieving tools for coding standard";; exit 1
  | Ok tools =>
      for_each tools (λ uuid,
        match uuid with
        | Some tool_uuid =>
            if Py.truthy uuid then _disable_tool a standard_id tool_uuid
            else mret tt
        | None => mret tt
        end)
  end.

Definition _get_available_patterns (a : api) (fuel : nat) : M (gset string) :=
  paginate a SONAR_UUID keep_id
    "Warning: Could not retrieve available patterns" fuel None ∅.

Definition _get_all_tool_patterns (a : api) (fuel : nat) (tool_uuid : string) : M (gset string) :=
  paginate a tool_uuid keep_id
    "Warning: Could not retrieve all patterns for tool" fuel None ∅.

(** The Codacy tool of a SonarQube repository; [None]: unknown repository. *)
Definition tool_name_of (repository_key : option string) : option string :=
  if decide (repository_key = Some "csharpsquid") then Some "SonarC#"
  else if decide (repository_key = Some "roslyn.sonaranalyzer.security.cs")
       then Some "SonarC#"
       else None.

(** [f"SonarCSharp_{rule_key}"] *)
Definition pattern_id_of (rule_key : option string) : string :=
  PREFIX +:+ Py.str rule_key.

Definition pattern_config_of (r : rule) : pattern_config :=
  {| config_id := pattern_id_of (key r);
     config_enabled := true;
     config_parameters :=
       match parameters r with
       | [] => None
       | ps => Some ((λ kv, NameValue kv.1 kv.2) <$> ps)
       end |}.

(** One round of the loop of [_map_sonar_rules_to_codacy_patterns]. *)
Definition map_rule (available_patterns : gset string)
    (tool_patterns : gmap string (list pattern_config)) (r : rule)
    : gmap string (list pattern_config) :=
  match tool_name_of (repository_key r) with
  | None => tool_patterns
  | Some tool_name =>
      if decide (pattern_id_of (key r) ∈ available_patterns)
      then <[tool_name :=
               default [] (tool_patterns !! tool_name) ++ [pattern_config_of r]]>
             tool_patterns
      else tool_patterns
  end.

Definition map_rules (available_patterns : gset string) (sonar_rules : list rule)
    : gmap string (list pattern_config) :=
  foldl (map_rule available_patterns) ∅ sonar_rules.

Definition _map_sonar_rules_to_codacy_patterns (a : api) (fuel : nat)
    (sonar_rules : list rule) : M (gmap string (list pattern_config)) :=
  available_patterns ← _get_available_patterns a fuel;
  mret (map_rules available_patterns sonar_rules).

(** The ['patterns'] of the payload of [_enable_tool_patterns]. *)
Definition comprehensive_patterns (patterns : list pattern_config)
    (all_available_patterns : gset string) : list pattern_config :=
  let enabled_pattern_ids : gset string := list_to_set (config_id <$> patterns) in
  patterns ++
  ((λ pattern_id, PatternConfig pattern_id false None)
     <$> filter (λ pattern_id, pattern_id ∉ enabled_pattern_ids)
           (elements all_available_patterns)).

Definition _enable_tool_patterns (a : api) (fuel : nat)
    (standard_id tool_uuid : string) (patterns : list pattern_config) : M bool :=
  all_available_patterns ← _get_all_tool_patterns a fuel tool_uuid;
  let comprehensive := comprehensive_patterns patterns all_available_patterns in
  response ← call (PatchTool standard_id tool_uuid true comprehensive)
                  (λ n, patch_of a n standard_id tool_uuid true comprehensive);
  match response with
  | Failed => print "Error enabling tool patterns";; mret false
  | Ok _ => mret true
  end.

(** Returns [enabled_rules_count]. *)
Fixpoint enable_tools (a : api) (fuel : nat) (tool_uuids : gmap string string)
    (standard_id : string) (items : list (string * list pattern_config))
    (enabled_rules_count : nat) : M nat :=
  match items with
  | [] => mret enabled_rules_count
  | (tool_name, patterns) :: items' =>
      match tool_uuids !! Py.lower tool_name with
      | None => enable_tools a fuel tool_uuids standard_id items' enabled_rules_count
      | Some tool_uuid =>
          if Py.truthy (Some tool_uuid)
          then
            success ← _enable_tool_patterns a fuel standard_id tool_uuid patterns;
            enable_tools a fuel tool_uuids standard_id items'
              (if success : bool then enabled_rules_count + length patterns
               else enabled_rules_count)
          else enable_tools a fuel tool_uuids standard_id items' enabled_rules_count
      end
  end.

Definition enable_sonar_rules (a : api) (fuel : nat) (sonar_rules : list rule)
    (tool_uuids : gmap string string) (standard_id : string) : M nat :=
  tool_patterns ← _map_sonar_rules_to_codacy_patterns a fuel sonar_rules;
  enable_tools a fuel tool_uuids standard_id (map_to_list tool_patterns) 0.

Definition promote_coding_standard (a : api) (standard_id : string) : M unit :=
  response ← call (PostPromote standard_id) (λ n, promote_of a n standard_id);
  match response with
  | Failed => print "Error promoting coding standard";; exit 1
  | Ok _ => mret tt
  end.

(** The rules of the two output files: enabled, then skipped. Writing the
    files leaves no event in the trace. *)
Definition _generate_output_files (a : api) (fuel : nat) (sonar_rules : list rule)
    : M (list rule * list rule) :=
  available_patterns ← _get_available_patterns a fuel;
  mret (filter (λ r, pattern_id_of (key r) ∈ available_patterns) sonar_rules,
        filter (λ r, pattern_id_of (key r) ∉ available_patterns) sonar_rules).

(** [run]: returns the totals of the closing summary, the number of rules
    in the XML and the number of them imported. *)
Definition run (a : api) (fuel : nat) (standard_name : string) (xml : xml_input)
    : M (nat * nat) :=
  sonar_rules ← parse_sonar_xml xml;
  tool_uuids ← get_tools a;
  standard_id ← create_coding_standard a standard_name;
  disable_all_tools a standard_id;;
  enable_sonar_rules a fuel sonar_rules tool_uuids standard_id;;
  promote_coding_standard a standard_id;;
  _generate_output_files a fuel sonar_rules;;
  available_patterns ← _get_available_patterns a fuel;
  mret (length sonar_rules,
        length (filter (λ r, pattern_id_of (key r) ∈ available_patterns) sonar_rules)).

(** [main], after the token was read: the exit status of the process and
    its trace; no status when the run never ends. *)
Definition main (a : api) (fuel : nat) (standard_name : string) (xml : xml_input)
    : option nat * list event :=
  match run a fuel standard_name xml 0 with
  | (Done _, t) => (Some 0, t)
  | (Exit status, t) => (Some status, t)
  | (Raise, t) => (Some 1, t ++ [Log "Unexpected error"])
  | (Diverge, t) => (None, t)
  end.

End Importer.

(** ** The steps of the coding-standard configuration *)

Inductive step : Type := Create | DisableAll | EnableSelected | Promote.

Definition rank (s : step) : nat :=
  match s with
  | Create => 0
  | DisableAll => 1
  | EnableSelected => 2
  | Promote => 3
  end.

(** The step a request belongs to. The steps of the configuration are
    its POST and PATCH requests; a GET only reads the platform and belongs
    to none. *)
Definition step_of (r : request) : option step :=
  match r with
  | PostStandard _ => Some Create
  | PatchTool _ _ false _ => Some DisableAll
  | PatchTool _ _ true _ => Some EnableSelected
  | PostPromote _ => Some Promote
  | GetTools | GetStandards | GetStandardTools _ | GetPatterns _ _ => None
  end.

Definition steps (t : list event) : list step :=
  omap (λ e, match e with Call r _ => step_of r | Log _ => None end) t.

(** The calls whose failure ends the importer. *)
Definition fatal (r : request) : bool :=
  match r with
  | GetTools | PostStandard _ | GetStandardTools _ | PostPromote _ => true
  | GetStandards | PatchTool _ _ _ _ | GetPatterns _ _ => false
  end.

(** ** Traces of the importer *)

(** A trace is calm when every failed call in it is one the importer
    survives and is followed at once by a printed line. *)
Fixpoint calm (t : list event) : bool :=
  match t with
  | [] => true
  | Call r false :: t' =>
      match t' with
      | Log _ :: t'' => negb (fatal r) && calm t''
      | _ => false
      end
  | _ :: t' => calm t'
  end.

(** [r'] ends a program the way [r] ended a part of it. *)
Definition stops {A B} (r : result A) (r' : result B) : Prop :=
  match r, r' with
  | Exit s, Exit s' => s = s'
  | Raise, Raise => True
  | Diverge, Diverge => True
  | _, _ => False
  end.

(** How a program of the importer may end: normally with a calm trace, or
    through [sys.exit(1)] right after the line printed for a failed call
    whose failure is fatal. *)
Definition settled {A} (r : result A) (t : list event) : Prop :=
  match r with
  | Done _ | Diverge => calm t = true
  | Exit s =>
      s = 1 ∧ ∃ t0 r line,
        t = t0 ++ [Call r false; Log line] ∧ fatal r = true ∧ calm t0 = true
  | Raise => False
  end.

Definition behaves {A} (m : M A) : Prop := ∀ n, settled (m n).1 (m n).2.

(** ** Sample inputs *)

(** A rule with two [<key>] children. *)
Definition two_keys_doc : Xml.element :=
  Xml.Element "rules" None
    [Xml.Element "rule" None
       [Xml.Element "key" (Some "A") []; Xml.Element "key" (Some "B") []]].


(** An export with one rule of a known repository and one of an unknown
    repository. *)
Definition sample_rule (repository key : string) : Xml.element :=
  Xml.Element "rule" None
    [Xml.Element "repositoryKey" (Some repository) [];
     Xml.Element "key" (Some key) [];
     Xml.Element "priority" (Some "MAJOR") []].

Definition sample_profile : Xml.element :=
  Xml.Element "profile" None
    [Xml.Element "rules" None
       [sample_rule "csharpsquid" "S2"; sample_rule "other" "S1"]].

(** ** Order of the configuration steps *)

(** The ranks of the steps of a trace, in the order of the trace. *)
Definition ranks (t : list event) : list nat := rank <$> steps t.

(** Every step of the program has a rank between [lo] and [hi], and the
    ranks never decrease along its trace. *)
Definition between (lo hi : nat) {A} (m : M A) : Prop := ∀ n,
  Forall (λ k, lo ≤ k ≤ hi) (ranks (m n).2) ∧
  StronglySorted le (ranks (m n).2).

(** A program that ends normally has gone through step [s]. *)
Definition passes (s : step) {A} (m : M A) : Prop := ∀ n a t,
  m n = (Done a, t) → s ∈ steps t.

(** ** Sequences of answers of the patterns endpoint *)

(** The answer ends the pagination loop: the request failed, or the page
    carries no cursor. *)
Definition last_page (h : http page) : bool :=
  match h with
  | Failed => true
  | Ok pg => negb (Py.truthy (cursor pg))
  end.

(** The cursor the loop sends with request [k] when the answers are
    [resp 0], [resp 1], ...: none with the first request, then the cursor
    of the answer before. *)
Definition sent_cursor (resp : nat → http page) (k : nat) : option string :=
  match k with
  | O => None
  | S j => match resp j with Ok pg => cursor pg | Failed => None end
  end.

(** The requests [first], ..., [first + count - 1] of the loop and how
    they went. *)
Definition page_calls (uuid : string) (resp : nat → http page)
    (first count : nat) : list event :=
  (λ k, Call (GetPatterns uuid (sent_cursor resp k)) (is_ok (resp k)))
    <$> seq first count.

(** The answers the platform gives to the requests of a pagination loop
    that starts when [n0] calls were issued: the first request carries no
    cursor, request [k + 1] the cursor of answer [k]. *)
Fixpoint answers (a : api) (uuid : string) (n0 k : nat) : http page :=
  patterns_of a (n0 + k) uuid
    match k with
    | O => None
    | S j =>
        match answers a uuid n0 j with
        | Ok pg => cursor pg
        | Failed => None
        end
    end.

(** A platform that serves the patterns of the tool in two pages. *)
Definition two_page_api : api := {|
  tools_of := λ _, Ok [];
  standards_of := λ _, Ok [];
  create_of := λ _ _, Failed;
  standard_tools_of := λ _ _, Ok [];
  patch_of := λ _ _ _ _ _, Ok tt;
  patterns_of := λ _ _ c,
    match c with
    | None => Ok (Page [Pattern (Some "SonarCSharp_S1") false] (Some "c1"))
    | Some _ => Ok (Page [Pattern (Some "SonarCSharp_S2") false] None)
    end;
  promote_of := λ _ _, Ok tt
|}.

(** ** Rules the importer enables *)

(** The rule comes from one of the two repositories the importer maps to
    the SonarC# tool. *)
Definition known_repository (r : Importer.rule) : Prop :=
  Importer.repository_key r = Some "csharpsquid" ∨
  Importer.repository_key r = Some "roslyn.sonaranalyzer.security.cs".

(** The rule comes from a known repository and its pattern id is among
    the available patterns. *)
Definition matched (available_patterns : gset string) (r : Importer.rule) : Prop :=
  known_repository r ∧
  Importer.pattern_id_of (Importer.key r) ∈ available_patterns.

#[global] Instance matched_dec available_patterns r :
  Decision (matched available_patterns r).
Proof. unfold matched, known_repository. apply _. Defined.

(** A platform on which every call succeeds; the SonarC# tool has two
    patterns, served in one page. *)
Definition steady_api : api := {|
  tools_of := λ _, Ok [Tool (Some "SonarC#") (Some "u1")];
  standards_of := λ _, Ok [];
  create_of := λ _ _, Ok "42";
  standard_tools_of := λ _ _, Ok [Some "u1"];
  patch_of := λ _ _ _ _ _, Ok tt;
  patterns_of := λ _ _ _,
    Ok (Page [Pattern (Some "SonarCSharp_S1") false;
              Pattern (Some "SonarCSharp_S2") false] None);
  promote_of := λ _ _, Ok tt
|}.

(** The rules [parse_sonar_xml] reads from [sample_profile]. *)
Definition sample_rules : list Importer.rule :=
  [Importer.Rule (Some "csharpsquid") (Some "S2") (Some "MAJOR") [];
   Importer.Rule (Some "other") (Some "S1") (Some "MAJOR") []].

(** The dict [tool_patterns] that holds the list [l] for the one tool, or
    nothing when [l] is empty. *)
Definition tool_dict (l : list pattern_config) : gmap string (list pattern_config) :=
  match l with
  | [] => ∅
  | _ => {[ "SonarC#" := l ]}
  end.

(** ** Occurrences of a string in another *)

(** [old in s] *)
Fixpoint occurs (old s : string) : bool :=
  String.prefix old s ||
  match s with
  | EmptyString => false
  | String _ s' => occurs old s'
  end.

(** A platform that knows one standard of the default name and one with
    the first number. *)
Definition named_api : api := {|
  tools_of := λ _, Ok [];
  standards_of := λ _, Ok ["Imported Sonar Rules"; "Imported Sonar Rules (1)"];
  create_of := λ _ _, Ok "42";
  standard_tools_of := λ _ _, Ok [];
  patch_of := λ _ _ _ _ _, Ok tt;
  patterns_of := λ _ _ _, Ok (Page [] None);
  promote_of := λ _ _, Ok tt
|}.

(** ** Requests of a trace *)

(** The requests a trace holds, in the order they were sent. *)
Definition requests (t : list event) : list request :=
  omap (λ e, match e with Call r _ => Some r | Log _ => None end) t.

(** The requests of a trace that are steps of the configuration: its
    POSTs and PATCHes, in the order they were sent. *)
Definition writes (t : list event) : list request :=
  filter (λ r, is_Some (step_of r)) (requests t).

(** A platform with three tools, two of them under names that differ in
    case only, and one without a uuid. *)
Definition three_tools_api : api := {|
  tools_of := λ _, Ok [Tool (Some "SonarC#") (Some "u1");
                       Tool (Some "ESLint") (Some "");
                       Tool (Some "sonarc#") (Some "u2")];
  standards_of := λ _, Ok [];
  create_of := λ _ _, Ok "42";
  standard_tools_of := λ _ _, Ok [Some "u1"; None; Some ""; Some "u2"];
  patch_of := λ n _ _ _ _, match n with 1 => Failed | _ => Ok tt end;
  patterns_of := λ _ _ _, Ok (Page [] None);
  promote_of := λ _ _, Ok tt
|}.

(** ** The standard a request configures *)

(** The coding standard a request reads the configuration of or changes,
    if any: the id in the path of the request. *)
Definition standard_of (r : request) : option string :=
  match r with
  | GetStandardTools s | PatchTool s _ _ _ | PostPromote s => Some s
  | GetTools | GetStandards | PostStandard _ | GetPatterns _ _ => None
  end.

(** Every request of the program that names a standard names [sid]. *)
Definition confined (sid : string) {A} (m : M A) : Prop :=
  ∀ n r ok s, Call r ok ∈ (m n).2 → standard_of r = Some s → s = sid.

(** ** Rule elements the importer can read *)

(** A [<parameter>] with a [<key>] and a [<value>] child. *)
Definition complete_parameter (param : Xml.element) : Prop :=
  is_Some (Xml.find "key" param) ∧ is_Some (Xml.find "value" param).

(** A [<rule>] with the three children the importer reads and, when it
    has a [<parameters>] child, only complete parameters in the first
    one. *)
Definition complete_rule (rule : Xml.element) : Prop :=
  is_Some (Xml.find "repositoryKey" rule) ∧
  is_Some (Xml.find "key" rule) ∧
  is_Some (Xml.find "priority" rule) ∧
  ∀ params, Xml.find "parameters" rule = Some params →
    Forall complete_parameter (Xml.findall "parameter" params).

(** A rule that sets the parameter [max] twice. *)
Definition twice_set_rule : Xml.element :=
  Xml.Element "rule" None
    [Xml.Element "repositoryKey" (Some "csharpsquid") [];
     Xml.Element "key" (Some "S107") [];
     Xml.Element "priority" (Some "MAJOR") [];
     Xml.Element "parameters" None
       [Xml.Element "parameter" None
          [Xml.Element "key" (Some "max") []; Xml.Element "value" (Some "5") []];
        Xml.Element "parameter" None
          [Xml.Element "key" (Some "min") []; Xml.Element "value" (Some "1") []];
        Xml.Element "parameter" None
          [Xml.Element "key" (Some "max") []; Xml.Element "value" (Some "7") []]]].

(** A platform whose pages of patterns all carry a cursor. *)
Definition endless_api : api := {|
  tools_of := λ _, Ok [];
  standards_of := λ _, Ok [];
  create_of := λ _ _, Failed;
  standard_tools_of := λ _ _, Ok [];
  patch_of := λ _ _ _ _ _, Ok tt;
  patterns_of := λ _ _ _, Ok (Page [Pattern (Some "SonarCSharp_S1") false] (Some "next"));
  promote_of := λ _ _, Ok tt
|}.

(** An export whose only rule comes from a repository the importer does
    not map to a tool. *)
Definition foreign_profile : Xml.element :=
  Xml.Element "profile" None
    [Xml.Element "rules" None [sample_rule "other" "S1"]].

(** * Properties *)

Section PyFacts.

Lemma sorted_Permutation l : Py.sorted l ≡ₚ l.
Proof. apply merge_sort_Permutation. Qed.

Lemma elem_of_sorted x l : x ∈ Py.sorted l ↔ x ∈ l.
Proof. by rewrite sorted_Permutation. Qed.

Lemma length_sorted l : length (Py.sorted l) = length l.
Proof. by rewrite sorted_Permutation. Qed.

Lemma list_to_set_sorted l :
  list_to_set (C := gset string) (Py.sorted l) = list_to_set l.
Proof. apply set_eq. intros x. by rewrite !elem_of_list_to_set, elem_of_sorted. Qed.

End PyFacts.

Section XmlFacts.
Import Xml.

Lemma element_ind' (P : element → Prop) :
  (∀ t x cs, Forall P cs → P (Element t x cs)) → ∀ e, P e.
Proof.
  intros step. fix IH 1. intros [t x cs]. apply step.
  induction cs as [|c cs IHcs]; constructor; [apply IH | exact IHcs].
Qed.

Lemma iter_unfold e : iter e = e :: descendants e.
Proof. by destruct e. Qed.

Lemma elem_of_descendants d e : d ∈ descendants e ↔ below d e.
Proof.
  split.
  - revert d. induction e as [t x cs IH] using element_ind'.
    intros d Hd. apply list_elem_of_bind in Hd as (c & Hdc & Hc).
    rewrite Forall_forall in IH.
    rewrite iter_unfold in Hdc. apply elem_of_cons in Hdc as [->|Hdc].
    + by apply below_child.
    + apply below_deeper with c; [by apply IH | done].
  - induction 1 as [c e Hc | d c e _ IH Hc].
    + apply list_elem_of_bind. exists c. split; [|done].
      rewrite iter_unfold. apply list_elem_of_here.
    + apply list_elem_of_bind. exists c. split; [|done].
      rewrite iter_unfold. by apply list_elem_of_further.
Qed.

Lemma elem_of_iter d e : d ∈ iter e ↔ d = e ∨ below d e.
Proof. by rewrite iter_unfold, elem_of_cons, elem_of_descendants. Qed.

Lemma head_filter_Some {A} (P : A → Prop) `{∀ x, Decision (P x)} (l : list A) (c : A) :
  head (filter P l) = Some c ↔
  ∃ before after, l = before ++ c :: after ∧ P c ∧ Forall (λ d, ¬ P d) before.
Proof.
  induction l as [|a l IH].
  - split; [done|]. intros (before & after & Heq & _). by destruct before.
  - rewrite filter_cons. destruct (decide (P a)) as [Ha|Ha]; simpl.
    + split.
      * intros [= ->]. by exists [], l.
      * intros ([|b before] & after & Heq & Hc & Hbefore).
        -- by injection Heq as ->.
        -- injection Heq as -> _. by apply Forall_cons in Hbefore as [? _].
    + rewrite IH. split.
      * intros (before & after & -> & Hc & Hbefore).
        exists (a :: before), after. by repeat constructor.
      * intros ([|b before] & after & Heq & Hc & Hbefore).
        -- injection Heq as -> _. done.
        -- injection Heq as -> ->. apply Forall_cons in Hbefore as [_ ?].
           by exists before, after.
Qed.

Lemma find_first_child t e c : find t e = Some c ↔ first_child t e c.
Proof. unfold find, findall, first_child. by rewrite head_filter_Some. Qed.

Lemma elem_of_findall_descendants t d e :
  d ∈ findall_descendants t e ↔ below d e ∧ tag d = t.
Proof.
  unfold findall_descendants.
  rewrite list_elem_of_filter, elem_of_descendants. tauto.
Qed.

End XmlFacts.

Lemma elem_of_xml_rule_keys root k :
  k ∈ xml_rule_keys root ↔
  ∃ rule c, Xml.below rule root ∧ Xml.tag rule = "rule" ∧
            Xml.first_child "key" rule c ∧ Xml.text c = Some k.
Proof.
  unfold xml_rule_keys. rewrite list_elem_of_omap. split.
  - intros (rule & Hrule & Hk).
    apply elem_of_findall_descendants in Hrule as [Hbelow Htag].
    destruct (Xml.find "key" rule) as [c|] eqn:Hfind; [|done].
    exists rule, c. by rewrite <- find_first_child.
  - intros (rule & c & Hbelow & Htag & Hc & Hk).
    exists rule. split; [by apply elem_of_findall_descendants|].
    apply find_first_child in Hc. by rewrite Hc.
Qed.


Section ParsedRules.
Import Importer.

Lemma parse_rule_key rule r :
  parse_rule rule = Some r → Xml.find "key" rule ≫= Xml.text = key r.
Proof.
  unfold parse_rule. intros Hparse.
  destruct (Xml.find "repositoryKey" rule) as [repository|]; [|done].
  destruct (Xml.find "key" rule) as [k|]; [|done].
  destruct (Xml.find "priority" rule) as [p|]; [|done].
  destruct (parse_parameters rule) as [ps|]; [|done].
  simpl in Hparse. by injection Hparse as <-.
Qed.

(** The keys of the rules the importer parses are the rule keys of the
    stand-alone scripts. *)
Lemma parse_sonar_xml_keys root rules n :
  parse_sonar_xml (Parsed root) n = (Done rules, []) →
  omap key rules = xml_rule_keys root.
Proof.
  unfold parse_sonar_xml, xml_rule_keys.
  destruct (mapM parse_rule (Xml.findall_descendants "rule" root))
    as [parsed|] eqn:Hparsed; [|done].
  intros [= <-]. apply mapM_Some in Hparsed.
  induction Hparsed as [|rule r elements parsed Hrule _ IH]; [done|].
  cbn [omap list_omap]. rewrite (parse_rule_key rule r Hrule).
  fold (omap key parsed). fold (omap (λ rule, Xml.find "key" rule ≫= Xml.text) elements).
  by rewrite IH.
Qed.

End ParsedRules.

(** C6 as stated fails: the second [<key>] child of a [<rule>] has a text
    that is not collected. *)
Lemma second_key_child_not_collected :
  (∃ rule c, rule ∈ Xml.iter two_keys_doc ∧ Xml.tag rule = "rule" ∧
             c ∈ Xml.children rule ∧ Xml.tag c = "key" ∧ Xml.text c = Some "B") ∧
  elements (GetDefaultPatterns.get_xml_rules two_keys_doc) = ["A"] ∧
  CheckMissingRules.get_xml_rules two_keys_doc = ["A"] ∧
  "B" ∉ GetDefaultPatterns.get_xml_rules two_keys_doc.
Proof.
  split; [|split; [|split]].
  - exists (Xml.Element "rule" None
             [Xml.Element "key" (Some "A") []; Xml.Element "key" (Some "B") []]),
           (Xml.Element "key" (Some "B") []).
    split; [|split; [done|split; [|done]]].
    + vm_compute. set_solver.
    + simpl. set_solver.
  - by vm_compute.
  - by vm_compute.
  - apply (bool_decide_unpack _). by vm_compute.
Qed.

(** C6, amended. A key is among the rule keys extracted from a document
    if and only if some [<rule>] element strictly below the root has a
    first [<key>] child whose text is that key; this holds for the set of
    [get_default_patterns.py], for the sorted lists of the two other
    stand-alone scripts and for the keys of the rules the importer
    parses, when it parses the document without an exception. *)
Theorem get_xml_rules_first_key_below_root root k :
  let keyed :=
    ∃ rule c, Xml.below rule root ∧ Xml.tag rule = "rule" ∧
              Xml.first_child "key" rule c ∧ Xml.text c = Some k in
  (k ∈ GetDefaultPatterns.get_xml_rules root ↔ keyed) ∧
  (k ∈ CheckMissingRules.get_xml_rules root ↔ keyed) ∧
  (k ∈ VerifyCodingStandard.get_xml_rules root ↔ keyed) ∧
  (∀ rules n,
     Importer.parse_sonar_xml (Importer.Parsed root) n = (Done rules, []) →
     (Some k ∈ Importer.key <$> rules ↔ keyed)).
Proof.
  intros keyed. unfold GetDefaultPatterns.get_xml_rules,
    CheckMissingRules.get_xml_rules, VerifyCodingStandard.get_xml_rules.
  rewrite elem_of_list_to_set, !elem_of_sorted.
  pose proof (elem_of_xml_rule_keys root k) as Hkeys.
  repeat (split; [exact Hkeys|]).
  intros rules n Hparse. etrans; [|exact Hkeys].
  rewrite <- (parse_sonar_xml_keys root rules n Hparse).
  rewrite list_elem_of_omap, list_elem_of_fmap. split.
  - intros (r & Hkey & Hr). by exists r.
  - intros (r & Hr & Hkey). by exists r.
Qed.

(** C2. For every list of XML rule keys and every list of remote keys,
    the reconciliation reports as missing the keys of the XML list that
    are not remote, as extra the remote keys that are not in the XML list,
    and as matching the keys in both. *)
Theorem reconcile_sets xml_rules remote_keys k :
  let r := reconcile xml_rules remote_keys in
  (k ∈ missing r ↔ k ∈ xml_rules ∧ k ∉ remote_keys) ∧
  (k ∈ extra r ↔ k ∈ remote_keys ∧ k ∉ xml_rules) ∧
  (k ∈ matching r ↔ k ∈ xml_rules ∧ k ∈ remote_keys).
Proof.
  simpl. rewrite !elem_of_difference, elem_of_intersection, !elem_of_list_to_set.
  tauto.
Qed.

Lemma size_list_to_set_remove_dups (l : list string) :
  size (list_to_set (C := gset string) l) = length (remove_dups l).
Proof.
  rewrite <- (size_list_to_set (C := gset string) (remove_dups l)) by apply NoDup_remove_dups.
  f_equal. apply set_eq. intros x.
  by rewrite !elem_of_list_to_set, elem_of_remove_dups.
Qed.

Lemma size_split (X Y : gset string) : size (X ∖ Y) + size (X ∩ Y) = size X.
Proof.
  rewrite <- size_union; [f_equal|].
  2:{ intros x. rewrite elem_of_difference, elem_of_intersection. tauto. }
  apply set_eq. intros x. rewrite elem_of_union, elem_of_difference, elem_of_intersection.
  destruct (decide (x ∈ Y)); tauto.
Qed.

Lemma length_remove_dups_le (l : list string) : length (remove_dups l) ≤ length l.
Proof.
  induction l as [|x l IH]; simpl; [done|].
  destruct (decide_rel elem_of x l); simpl; lia.
Qed.

(** C9. The sizes of the missing and matching sets add up to the number
    of distinct XML keys, those of the extra and matching sets to the
    number of distinct remote keys; the two printed totals are list
    lengths, at least the distinct counts and larger on some inputs. *)
Theorem reconcile_counts xml_rules remote_keys :
  let r := reconcile xml_rules remote_keys in
  size (missing r) + size (matching r) = length (remove_dups xml_rules) ∧
  size (extra r) + size (matching r) = length (remove_dups remote_keys) ∧
  length (remove_dups xml_rules) ≤ xml_total r ∧
  length (remove_dups remote_keys) ≤ remote_total r ∧
  (∃ xs cs, length (remove_dups xs) < xml_total (reconcile xs cs) ∧
            length (remove_dups cs) < remote_total (reconcile xs cs)).
Proof.
  simpl. rewrite <- !size_list_to_set_remove_dups.
  split; [apply size_split|].
  split.
  { rewrite (intersection_comm_L (list_to_set xml_rules)). apply size_split. }
  rewrite !size_list_to_set_remove_dups.
  split; [apply length_remove_dups_le|].
  split; [apply length_remove_dups_le|].
  exists ["S1"; "S1"], ["S2"; "S2"]. by vm_compute.
Qed.

(** C10. The success rate of [verify_coding_standard.py] is defined
    exactly when the XML yields at least one rule key; a document without
    rule keys exists, and on it the division raises whatever the platform
    answers. *)
Theorem success_rate_defined root tool :
  (VerifyCodingStandard.main root tool = None ↔ xml_rule_keys root = []) ∧
  (∃ empty, xml_rule_keys empty = [] ∧
            ∀ tool', VerifyCodingStandard.main empty tool' = None).
Proof.
  assert (∀ r t, VerifyCodingStandard.main r t = None ↔ xml_rule_keys r = []) as Hmain.
  { intros r t. unfold VerifyCodingStandard.main, VerifyCodingStandard.success_rate,
      VerifyCodingStandard.get_xml_rules. simpl.
    rewrite length_sorted.
    destruct (xml_rule_keys r) as [|k ks]; simpl; [done|].
    split; [|done]. destruct (length ks); simpl; discriminate. }
  split; [apply Hmain|].
  exists (Xml.Element "profile" None []). split; [done|].
  intros tool'. by apply Hmain.
Qed.

(** C5 fails on the code: [replace] removes every occurrence of the
    prefix, not only the leading one, so the rest of the identifier is
    changed when it contains the prefix again. *)
Theorem replace_strips_every_occurrence :
  rule_key_of "SonarCSharp_SonarCSharp_S1" = Some "S1" ∧
  strip_prefix "SonarCSharp_SonarCSharp_S1" = Some "SonarCSharp_S1" ∧
  rule_key_of "SonarCSharp_S1SonarCSharp_" = Some "S1" ∧
  strip_prefix "SonarCSharp_S1SonarCSharp_" = Some "S1SonarCSharp_".
Proof. repeat split; by vm_compute. Qed.


Section UniqueName.
Import Importer.

Lemma string_length_app (s t : string) :
  String.length (s +:+ t) = String.length s + String.length t.
Proof. induction s as [|c s IH]; simpl; [done|]. by rewrite IH. Qed.

Lemma string_app_inj_r (s1 s2 t : string) : s1 +:+ t = s2 +:+ t → s1 = s2.
Proof.
  revert s2. induction s1 as [|c s1 IH]; intros [|d s2] Heq.
  - done.
  - apply (f_equal String.length) in Heq.
    rewrite !string_length_app in Heq. simpl in Heq. lia.
  - apply (f_equal String.length) in Heq.
    rewrite !string_length_app in Heq. simpl in Heq. lia.
  - simpl in Heq. injection Heq as -> Heq. f_equal. by apply IH.
Qed.

Lemma numbered_inj base : Inj (=) (=) (numbered base).
Proof.
  intros k j Heq. unfold numbered in Heq.
  apply (inj (String.app base)) in Heq.
  apply (inj (String.app " (")) in Heq.
  apply string_app_inj_r in Heq.
  by apply (inj pretty) in Heq.
Qed.

Lemma first_free_None fuel existing base c :
  first_free fuel existing base c = None →
  ∀ i, i < fuel → numbered base (c + i) ∈ existing.
Proof.
  revert c. induction fuel as [|fuel IH]; intros c Hnone i Hi; [lia|].
  simpl in Hnone. destruct (decide (numbered base c ∈ existing)) as [Hin|]; [|done].
  destruct i as [|i].
  - by rewrite Nat.add_0_r.
  - replace (c + S i) with (S c + i) by lia. apply IH; [done|lia].
Qed.

Lemma first_free_Some fuel existing base c k :
  first_free fuel existing base c = Some k →
  c ≤ k ∧ (numbered base k ∉ existing) ∧
  (∀ j, c ≤ j < k → numbered base j ∈ existing).
Proof.
  revert c. induction fuel as [|fuel IH]; intros c Hsome; [done|].
  simpl in Hsome. destruct (decide (numbered base c ∈ existing)) as [Hin|Hout].
  - apply IH in Hsome as (Hle & Hk & Hbelow).
    split; [lia|]. split; [done|].
    intros j Hj. destruct (decide (j = c)) as [->|]; [done|].
    apply Hbelow. lia.
  - injection Hsome as <-. split; [done|]. split; [done|]. intros j Hj. lia.
Qed.

Lemma first_free_enough fuel (existing : gset string) base c :
  size existing < fuel → is_Some (first_free fuel existing base c).
Proof.
  intros Hfuel.
  destruct (first_free fuel existing base c) as [k|] eqn:Hfree; [by eexists|].
  exfalso.
  pose proof (first_free_None _ _ _ _ Hfree) as Hall.
  assert (list_to_set (numbered base <$> seq c fuel) ⊆ existing) as Hsub.
  { intros x Hx. apply elem_of_list_to_set in Hx.
    apply list_elem_of_fmap in Hx as (j & -> & Hj).
    apply elem_of_seq in Hj. replace j with (c + (j - c)) by lia.
    apply Hall. lia. }
  apply subseteq_size in Hsub.
  rewrite size_list_to_set in Hsub.
  - rewrite length_fmap, length_seq in Hsub. lia.
  - pose proof (numbered_inj base). apply (NoDup_fmap_2 (numbered base)), NoDup_seq.
Qed.

Lemma unique_name_spec base (existing : gset string) :
  ∃ name, unique_name base existing = Some name ∧ (name ∉ existing) ∧
    (((base ∉ existing) ∧ name = base) ∨
     (base ∈ existing ∧
      ∃ k, 1 ≤ k ∧ name = numbered base k ∧
           ∀ j, 1 ≤ j < k → numbered base j ∈ existing)).
Proof.
  unfold unique_name. destruct (decide (base ∈ existing)) as [Hin|Hout].
  - destruct (first_free_enough (S (size existing)) existing base 1) as [k Hk]; [lia|].
    rewrite Hk. simpl. apply first_free_Some in Hk as (Hle & Hfree & Hbelow).
    exists (numbered base k). split; [done|]. split; [done|].
    right. split; [done|]. by exists k.
  - exists base. split; [done|]. split; [done|]. by left.
Qed.

(** C8. When the names of the existing standards are retrieved, the
    unique-name computation returns, after the one GET, a name that is not
    among them: the requested name when it is free, otherwise the
    requested name followed by [" (k)"] for the least [k >= 1] that gives a
    free name. *)
Theorem unique_name_is_fresh_and_least a base n names :
  standards_of a n = Ok names →
  ∃ name,
    _get_unique_standard_name a base n = (Done name, [Call GetStandards true]) ∧
    (name ∉ names) ∧
    (((base ∉ names) ∧ name = base) ∨
     (base ∈ names ∧
      ∃ k, 1 ≤ k ∧ name = numbered base k ∧ (numbered base k ∉ names) ∧
           ∀ j, 1 ≤ j < k → numbered base j ∈ names)).
Proof.
  intros Hnames.
  destruct (unique_name_spec base (list_to_set names)) as (name & Hname & Hfresh & Hshape).
  exists name.
  setoid_rewrite elem_of_list_to_set in Hshape.
  rewrite elem_of_list_to_set in Hfresh.
  split; [|split; [done|]].
  - unfold _get_unique_standard_name, mbind, M_bind, bind, call.
    rewrite Hnames. simpl. by rewrite Hname.
  - destruct Hshape as [?|(Hin & k & Hk & -> & Hbelow)]; [by left|].
    right. split; [done|]. by exists k.
Qed.

End UniqueName.




Section Monad.
Context {A B : Type}.

Lemma bind_unfold (m : M A) (f : A → M B) n :
  (m ≫= f) n =
  match m n with
  | (Done a, t) => let '(r, t') := f a (n + calls t) in (r, t ++ t')
  | (Exit s, t) => (Exit s, t)
  | (Raise, t) => (Raise, t)
  | (Diverge, t) => (Diverge, t)
  end.
Proof. reflexivity. Qed.

Lemma bind_inv (m : M A) (f : A → M B) n r t :
  (m ≫= f) n = (r, t) →
  (∃ a t1 t2, m n = (Done a, t1) ∧ f a (n + calls t1) = (r, t2) ∧ t = t1 ++ t2) ∨
  (∃ r0, m n = (r0, t) ∧ stops r0 r).
Proof.
  rewrite bind_unfold. destruct (m n) as [[a|s| |] t1].
  - destruct (f a (n + calls t1)) as [r2 t2] eqn:Hf. intros [= <- <-].
    left. by exists a, t1, t2.
  - intros [= <- <-]. right. by exists (Exit s).
  - intros [= <- <-]. right. by exists Raise.
  - intros [= <- <-]. right. by exists Diverge.
Qed.

End Monad.

Lemma calm_app t t' : calm t = true → calm t' = true → calm (t ++ t') = true.
Proof.
  intros Ht Ht'. revert Ht.
  induction t as [t IH] using (induction_ltof1 _ (@length event)). unfold ltof in IH.
  destruct t as [|[r [|]|line] t]; simpl; intros Ht.
  - done.
  - apply IH; [simpl; lia|done].
  - destruct t as [|[r' ok|line] t]; simpl in *; try done.
    apply andb_true_iff in Ht as [-> Ht]. simpl. apply IH; [simpl; lia|done].
  - apply IH; [simpl; lia|done].
Qed.

Lemma calm_lookup t i r :
  calm t = true → t !! i = Some (Call r false) →
  fatal r = false ∧ ∃ line, t !! S i = Some (Log line).
Proof.
  revert i.
  induction t as [t IH] using (induction_ltof1 _ (@length event)). unfold ltof in IH.
  intros i Ht Hi.
  destruct t as [|[r' [|]|line] t]; simpl in Ht.
  - done.
  - destruct i as [|i]; [done|]. simpl in Hi. apply (IH t); [simpl; lia|done|done].
  - destruct t as [|[r'' ok|line] t]; try done.
    apply andb_true_iff in Ht as [Hr Ht].
    destruct i as [|[|i]]; simpl in Hi.
    + injection Hi as ->. split; [by destruct (fatal r)|]. by exists line.
    + done.
    + apply (IH t); [simpl; lia|done|done].
  - destruct i as [|i]; [done|]. simpl in Hi. apply (IH t); [simpl; lia|done|done].
Qed.



Section Behaves.
Import Importer.

Lemma behaves_bind {A B} (m : M A) (f : A → M B) :
  behaves m → (∀ a, behaves (f a)) → behaves (m ≫= f).
Proof.
  intros Hm Hf n. specialize (Hm n). rewrite bind_unfold.
  destruct (m n) as [[a|s| |] t1]; simpl in *; try done.
  specialize (Hf a (n + calls t1)).
  destruct (f a (n + calls t1)) as [[b|s| |] t2]; simpl in *; try done.
  - by apply calm_app.
  - destruct Hf as (-> & t0 & r & line & -> & Hr & Ht0). split; [done|].
    exists (t1 ++ t0), r, line. rewrite app_assoc. split; [done|].
    split; [done|]. by apply calm_app.
  - by apply calm_app.
Qed.

Lemma settled_call_ok {A} (r : result A) t req :
  settled r t → settled r (Call req true :: t).
Proof.
  destruct r as [x|s| |]; simpl; try done.
  intros (-> & t0 & r & line & -> & Hr & Ht0). split; [done|].
  by exists (Call req true :: t0), r, line.
Qed.

Lemma settled_call_failed {A} (r : result A) t req line :
  fatal req = false → settled r t → settled r (Call req false :: Log line :: t).
Proof.
  intros Hreq. destruct r as [x|s| |]; simpl; rewrite ?Hreq; try done.
  intros (-> & t0 & r & line' & -> & Hr & Ht0). split; [done|].
  exists (Call req false :: Log line :: t0), r, line'. simpl. by rewrite Hreq.
Qed.

Lemma behaves_call {A B} req (answer : nat → http A) line (failed : M B) (ok : A → M B) :
  (∀ x, behaves (ok x)) →
  (if fatal req then failed = exit 1 else behaves failed) →
  behaves (response ← call req answer;
           match response with
           | Failed => print line;; failed
           | Ok x => ok x
           end).
Proof.
  intros Hok Hfailed n. rewrite bind_unfold. unfold call.
  destruct (answer n) as [x|]; cbn [is_ok].
  - specialize (Hok x (n + calls [Call req true])).
    destruct (ok x _) as [r t]. by apply settled_call_ok.
  - rewrite bind_unfold. unfold print.
    destruct (fatal req) eqn:Hreq.
    + subst failed. simpl. split; [done|]. by exists [], req, line.
    + specialize (Hfailed (n + calls [Call req false] + calls [Log line])).
      destruct (failed _) as [r t]. by apply (settled_call_failed r t req line).
Qed.

Lemma behaves_ret {A} (a : A) : behaves (mret a).
Proof. by intros n. Qed.

Lemma behaves_print line : behaves (print line).
Proof. by intros n. Qed.

Lemma behaves_diverge {A} : behaves (@diverge A).
Proof. by intros n. Qed.

Lemma behaves_for_each {A} (l : list A) body :
  (∀ x, behaves (body x)) → behaves (for_each l body).
Proof.
  intros Hbody. induction l as [|x l IH]; simpl.
  - apply behaves_ret.
  - apply behaves_bind; [apply Hbody|]. by intros _.
Qed.

Lemma behaves_paginate a uuid keep warning fuel cur all :
  behaves (paginate a uuid keep warning fuel cur all).
Proof.
  revert cur all. induction fuel as [|fuel IH]; intros cur all; simpl.
  - apply behaves_diverge.
  - apply behaves_call; [|apply behaves_ret].
    intros pg. destruct (Py.truthy (cursor pg)); [apply IH|apply behaves_ret].
Qed.

Lemma behaves_get_tools a : behaves (get_tools a).
Proof. apply behaves_call; [|done]. intros tools. apply behaves_ret. Qed.

Lemma behaves_get_unique_standard_name a name : behaves (_get_unique_standard_name a name).
Proof.
  apply behaves_call; [|apply behaves_ret].
  intros names. destruct (unique_name _ _); [apply behaves_ret|apply behaves_diverge].
Qed.

Lemma behaves_create_coding_standard a name : behaves (create_coding_standard a name).
Proof.
  apply behaves_bind; [apply behaves_get_unique_standard_name|].
  intros final. apply behaves_call; [|done]. intros sid. apply behaves_ret.
Qed.

Lemma behaves_disable_tool a sid uuid : behaves (_disable_tool a sid uuid).
Proof. apply behaves_call; [|apply behaves_ret]. intros _. apply behaves_ret. Qed.

Lemma behaves_disable_all_tools a sid : behaves (disable_all_tools a sid).
Proof.
  apply behaves_call; [|done]. intros tools. apply behaves_for_each.
  intros [uuid|]; [|apply behaves_ret].
  destruct (Py.truthy (Some uuid)); [apply behaves_disable_tool|apply behaves_ret].
Qed.

Lemma behaves_enable_tool_patterns a fuel sid uuid patterns :
  behaves (_enable_tool_patterns a fuel sid uuid patterns).
Proof.
  apply behaves_bind; [apply behaves_paginate|].
  intros all. apply behaves_call; [|apply behaves_ret]. intros _. apply behaves_ret.
Qed.

Lemma behaves_enable_tools a fuel tool_uuids sid items count :
  behaves (enable_tools a fuel tool_uuids sid items count).
Proof.
  revert count. induction items as [|[tool_name patterns] items IH]; intros count;
    cbn [enable_tools].
  - apply behaves_ret.
  - destruct (tool_uuids !! Py.lower tool_name) as [uuid|]; [|apply IH].
    destruct (Py.truthy (Some uuid)); [|apply IH].
    apply behaves_bind; [apply behaves_enable_tool_patterns|]. intros success. apply IH.
Qed.

Lemma behaves_enable_sonar_rules a fuel rules tool_uuids sid :
  behaves (enable_sonar_rules a fuel rules tool_uuids sid).
Proof.
  apply behaves_bind.
  - apply behaves_bind; [apply behaves_paginate|]. intros ?. apply behaves_ret.
  - intros ?. apply behaves_enable_tools.
Qed.

Lemma behaves_promote a sid : behaves (promote_coding_standard a sid).
Proof. apply behaves_call; [|done]. intros _. apply behaves_ret. Qed.

Lemma behaves_generate_output_files a fuel rules : behaves (_generate_output_files a fuel rules).
Proof. apply behaves_bind; [apply behaves_paginate|]. intros ?. apply behaves_ret. Qed.

(** Everything [run] does once the XML is parsed. *)
Lemma behaves_after_parse a fuel name rules :
  behaves (tool_uuids ← get_tools a;
           standard_id ← create_coding_standard a name;
           disable_all_tools a standard_id;;
           enable_sonar_rules a fuel rules tool_uuids standard_id;;
           promote_coding_standard a standard_id;;
           _generate_output_files a fuel rules;;
           available_patterns ← _get_available_patterns a fuel;
           mret (length rules,
                 length (filter (λ r, pattern_id_of (key r) ∈ available_patterns) rules))).
Proof.
  apply behaves_bind; [apply behaves_get_tools|]. intros tool_uuids.
  apply behaves_bind; [apply behaves_create_coding_standard|]. intros sid.
  apply behaves_bind; [apply behaves_disable_all_tools|]. intros _.
  apply behaves_bind; [apply behaves_enable_sonar_rules|]. intros _.
  apply behaves_bind; [apply behaves_promote|]. intros _.
  apply behaves_bind; [apply behaves_generate_output_files|]. intros _.
  apply behaves_bind; [apply behaves_paginate|]. intros ?. apply behaves_ret.
Qed.

End Behaves.

Section FailureHandling.
Import Importer.



Lemma run_parsed a fuel name root rules n :
  mapM parse_rule (Xml.findall_descendants "rule" root) = Some rules →
  run a fuel name (Parsed root) n =
  (tool_uuids ← get_tools a;
   standard_id ← create_coding_standard a name;
   disable_all_tools a standard_id;;
   enable_sonar_rules a fuel rules tool_uuids standard_id;;
   promote_coding_standard a standard_id;;
   _generate_output_files a fuel rules;;
   available_patterns ← _get_available_patterns a fuel;
   mret (length rules,
         length (filter (λ r, pattern_id_of (key r) ∈ available_patterns) rules))) n.
Proof.
  intros Hrules. unfold run at 1. rewrite bind_unfold. unfold parse_sonar_xml.
  rewrite Hrules. cbn [mret M_ret ret]. change (calls []) with 0.
  rewrite Nat.add_0_r.
  match goal with |- (let '(r, t') := ?x in _) = _ => by destruct x end.
Qed.




End FailureHandling.

Section StepOrder.
Import Importer.

Lemma ranks_app t t' : ranks (t ++ t') = ranks t ++ ranks t'.
Proof. unfold ranks, steps. by rewrite omap_app, fmap_app. Qed.

Lemma StronglySorted_le_app (l l' : list nat) k :
  StronglySorted le l → StronglySorted le l' →
  Forall (λ j, j ≤ k) l → Forall (λ j, k ≤ j) l' →
  StronglySorted le (l ++ l').
Proof.
  intros Hl Hl' Hlo Hhi. induction Hl as [|x l Hl IH Hx]; simpl; [done|].
  apply Forall_cons in Hlo as [Hxk Hlo].
  constructor; [by apply IH|].
  apply Forall_app. split; [done|].
  eapply Forall_impl; [exact Hhi|]. simpl. lia.
Qed.

Lemma between_bind {A B} lo mid hi (m : M A) (f : A → M B) :
  lo ≤ mid ≤ hi →
  between lo mid m → (∀ a, between mid hi (f a)) → between lo hi (m ≫= f).
Proof.
  intros Hmid Hm Hf n. destruct (Hm n) as [Hrange Hsorted].
  rewrite bind_unfold. destruct (m n) as [[a|s| |] t]; simpl in *.
  2-4: split; [eapply Forall_impl; [exact Hrange|]; simpl; lia|done].
  destruct (Hf a (n + calls t)) as [Hrange' Hsorted'].
  destruct (f a (n + calls t)) as [r t']. simpl in *. rewrite ranks_app. split.
  - apply Forall_app. split; (eapply Forall_impl; [eassumption|]; simpl; lia).
  - apply StronglySorted_le_app with mid; [done|done| |].
    + eapply Forall_impl; [exact Hrange|]. simpl. lia.
    + eapply Forall_impl; [exact Hrange'|]. simpl. lia.
Qed.

Lemma between_weaken {A} lo hi lo' hi' (m : M A) :
  lo' ≤ lo → hi ≤ hi' → between lo hi m → between lo' hi' m.
Proof.
  intros Hlo Hhi Hm n. destruct (Hm n) as [Hrange Hsorted]. split; [|done].
  eapply Forall_impl; [exact Hrange|]. simpl. lia.
Qed.

(** A program without steps fits anywhere. *)
Lemma between_silent {A} lo hi (m : M A) :
  (∀ n, steps (m n).2 = []) → between lo hi m.
Proof. intros Hm n. unfold ranks. rewrite Hm. split; constructor. Qed.

Lemma between_ret {A} lo hi (a : A) : between lo hi (mret a).
Proof. by apply between_silent. Qed.

Lemma between_print lo hi line : between lo hi (print line).
Proof. by apply between_silent. Qed.

Lemma between_exit {A} lo hi s : between lo hi (@exit A s).
Proof. by apply between_silent. Qed.

Lemma between_diverge {A} lo hi : between lo hi (@diverge A).
Proof. by apply between_silent. Qed.

(** A call at rank [k], or without a step, in front of a program at rank
    [k]. *)
Lemma between_call {A B} k req (answer : nat → http A) (f : http A → M B) :
  from_option (λ s, rank s = k) True (step_of req) →
  (∀ x, between k k (f x)) →
  between k k (call req answer ≫= f).
Proof.
  intros Hreq Hf n. rewrite bind_unfold. unfold call.
  destruct (Hf (answer n) (n + calls [Call req (is_ok (answer n))])) as [Hrange Hsorted].
  destruct (f _ _) as [r t]. simpl in *.
  unfold ranks, steps in *. simpl.
  destruct (step_of req) as [s|]; simpl in *; [|done].
  subst k. split.
  - constructor; [lia|done].
  - constructor; [done|]. eapply Forall_impl; [exact Hrange|]. simpl. lia.
Qed.

Lemma between_for_each {A} k (l : list A) body :
  (∀ x, between k k (body x)) → between k k (for_each l body).
Proof.
  intros Hbody. induction l as [|x l IH]; simpl.
  - apply between_ret.
  - apply (between_bind k k k); [lia|apply Hbody|]. by intros _.
Qed.

Lemma between_paginate lo hi a uuid keep warning fuel cur all :
  between lo hi (paginate a uuid keep warning fuel cur all).
Proof.
  apply between_silent. revert cur all.
  induction fuel as [|fuel IH]; intros cur all n; simpl; [done|].
  rewrite bind_unfold. unfold call.
  destruct (patterns_of a n uuid _) as [pg|]; simpl.
  - destruct (Py.truthy (cursor pg)); [|done].
    specialize (IH (cursor pg) (add_page keep all (data pg))
                  (n + calls [Call (GetPatterns uuid (if Py.truthy cur then cur else None)) true])).
    by destruct (paginate _ _ _ _ _ _ _ _) as [r t].
  - done.
Qed.

Lemma between_get_tools lo hi a : between lo hi (get_tools a).
Proof.
  apply between_silent. intros n. unfold get_tools. rewrite bind_unfold. unfold call.
  by destruct (tools_of a n).
Qed.

Lemma between_create_coding_standard a name :
  between 0 0 (create_coding_standard a name).
Proof.
  apply (between_bind 0 0 0); [lia| |].
  - apply between_call; [done|]. intros [names|].
    + destruct (unique_name _ _); [apply between_ret|apply between_diverge].
    + apply (between_bind 0 0 0); [lia|apply between_print|]. intros _. apply between_ret.
  - intros final. apply between_call; [done|]. intros [sid|].
    + apply between_ret.
    + apply (between_bind 0 0 0); [lia|apply between_print|]. intros _. apply between_exit.
Qed.

Lemma between_disable_all_tools a sid : between 1 1 (disable_all_tools a sid).
Proof.
  apply between_call; [done|]. intros [tools|].
  - apply between_for_each. intros [uuid|]; [|apply between_ret].
    destruct (Py.truthy (Some uuid)); [|apply between_ret].
    apply between_call; [done|]. intros [[]|].
    + apply between_ret.
    + apply (between_bind 1 1 1); [lia|apply between_print|]. intros _. apply between_ret.
  - apply (between_bind 1 1 1); [lia|apply between_print|]. intros _. apply between_exit.
Qed.

Lemma between_enable_tool_patterns a fuel sid uuid patterns :
  between 2 2 (_enable_tool_patterns a fuel sid uuid patterns).
Proof.
  apply (between_bind 2 2 2); [lia|apply between_paginate|].
  intros all. apply between_call; [done|]. intros [[]|].
  - apply between_ret.
  - apply (between_bind 2 2 2); [lia|apply between_print|]. intros _. apply between_ret.
Qed.

Lemma between_enable_tools a fuel tool_uuids sid items count :
  between 2 2 (enable_tools a fuel tool_uuids sid items count).
Proof.
  revert count. induction items as [|[tool_name patterns] items IH]; intros count;
    cbn [enable_tools].
  - apply between_ret.
  - destruct (tool_uuids !! Py.lower tool_name) as [uuid|]; [|apply IH].
    destruct (Py.truthy (Some uuid)); [|apply IH].
    apply (between_bind 2 2 2); [lia|apply between_enable_tool_patterns|].
    intros success. apply IH.
Qed.

Lemma between_enable_sonar_rules a fuel rules tool_uuids sid :
  between 2 2 (enable_sonar_rules a fuel rules tool_uuids sid).
Proof.
  apply (between_bind 2 2 2); [lia| |].
  - apply (between_bind 2 2 2); [lia|apply between_paginate|]. intros ?. apply between_ret.
  - intros ?. apply between_enable_tools.
Qed.

Lemma between_promote a sid : between 3 3 (promote_coding_standard a sid).
Proof.
  apply between_call; [done|]. intros [[]|].
  - apply between_ret.
  - apply (between_bind 3 3 3); [lia|apply between_print|]. intros _. apply between_exit.
Qed.

Lemma between_generate_output_files a fuel rules :
  between 3 3 (_generate_output_files a fuel rules).
Proof.
  apply (between_bind 3 3 3); [lia|apply between_paginate|]. intros ?. apply between_ret.
Qed.

Lemma between_after_parse a fuel name rules :
  between 0 3
    (tool_uuids ← get_tools a;
     standard_id ← create_coding_standard a name;
     disable_all_tools a standard_id;;
     enable_sonar_rules a fuel rules tool_uuids standard_id;;
     promote_coding_standard a standard_id;;
     _generate_output_files a fuel rules;;
     available_patterns ← _get_available_patterns a fuel;
     mret (length rules,
           length (filter (λ r, pattern_id_of (key r) ∈ available_patterns) rules))).
Proof.
  apply (between_bind 0 0 3); [lia|apply between_get_tools|]. intros tool_uuids.
  apply (between_bind 0 0 3); [lia|apply between_create_coding_standard|]. intros sid.
  apply (between_weaken 1 3); [lia|lia|].
  apply (between_bind 1 1 3); [lia|apply between_disable_all_tools|]. intros _.
  apply (between_weaken 2 3); [lia|lia|].
  apply (between_bind 2 2 3); [lia|apply between_enable_sonar_rules|]. intros _.
  apply (between_weaken 3 3); [lia|lia|].
  apply (between_bind 3 3 3); [lia|apply between_promote|]. intros _.
  apply (between_bind 3 3 3); [lia|apply between_generate_output_files|]. intros _.
  apply (between_bind 3 3 3); [lia|apply between_paginate|]. intros ?. apply between_ret.
Qed.

Lemma StronglySorted_lookup_le (l : list nat) i j x y :
  StronglySorted le l → i < j → l !! i = Some x → l !! j = Some y → x ≤ y.
Proof.
  intros Hl. revert i j. induction Hl as [|z l Hl IH Hz]; intros i j Hij Hi Hj; [done|].
  destruct j as [|j]; [lia|]. simpl in Hj. destruct i as [|i]; simpl in Hi.
  - injection Hi as ->. rewrite Forall_forall in Hz. apply Hz.
    by apply list_elem_of_lookup_2 with j.
  - apply (IH i j); [lia|done|done].
Qed.

Lemma passes_bind_l {A B} s (m : M A) (f : A → M B) :
  passes s m → passes s (m ≫= f).
Proof.
  intros Hm n b t Hrun.
  apply bind_inv in Hrun as [(a & t1 & t2 & Hm1 & _ & ->)|(r0 & Hm1 & Hstop)].
  - unfold steps. rewrite omap_app. apply elem_of_app. left. by apply (Hm n a).
  - by destruct r0.
Qed.

Lemma passes_bind_r {A B} s (m : M A) (f : A → M B) :
  (∀ a, passes s (f a)) → passes s (m ≫= f).
Proof.
  intros Hf n b t Hrun.
  apply bind_inv in Hrun as [(a & t1 & t2 & _ & Hf2 & ->)|(r0 & Hm1 & Hstop)].
  - unfold steps. rewrite omap_app. apply elem_of_app. right.
    by apply (Hf a (n + calls t1) b).
  - by destruct r0.
Qed.

Lemma passes_call {A B} s req (answer : nat → http A) (f : http A → M B) :
  step_of req = Some s → passes s (call req answer ≫= f).
Proof.
  intros Hreq n b t Hrun.
  apply bind_inv in Hrun as [(a & t1 & t2 & Hcall & _ & ->)|(r0 & Hcall & Hstop)].
  - injection Hcall as _ <-. unfold steps. simpl. rewrite Hreq. apply list_elem_of_here.
  - injection Hcall as <- _. done.
Qed.

Lemma passes_after_parse a fuel name rules s :
  s ∈ [Create; Promote] →
  passes s
    (tool_uuids ← get_tools a;
     standard_id ← create_coding_standard a name;
     disable_all_tools a standard_id;;
     enable_sonar_rules a fuel rules tool_uuids standard_id;;
     promote_coding_standard a standard_id;;
     _generate_output_files a fuel rules;;
     available_patterns ← _get_available_patterns a fuel;
     mret (length rules,
           length (filter (λ r, pattern_id_of (key r) ∈ available_patterns) rules))).
Proof.
  intros Hs. apply passes_bind_r. intros tool_uuids.
  apply elem_of_cons in Hs as [->|Hs].
  { apply passes_bind_l. unfold create_coding_standard.
    apply passes_bind_r. intros final. by apply passes_call. }
  apply list_elem_of_singleton in Hs as ->.
  apply passes_bind_r. intros sid.
  apply passes_bind_r. intros _. apply passes_bind_r. intros _.
  apply passes_bind_l. by apply passes_call.
Qed.

End StepOrder.

Section Pagination.

Lemma elem_of_add_page keep (all : gset string) (patterns : list pattern) x :
  x ∈ add_page keep all patterns ↔
  x ∈ all ∨ ∃ p, p ∈ patterns ∧ keep p = Some x.
Proof.
  unfold add_page. revert all.
  induction patterns as [|p patterns IH]; intros all; simpl.
  - split; [by left|]. intros [?|(p & Hp & _)]; [done|]. by apply elem_of_nil in Hp.
  - rewrite IH. split.
    + intros [Hx|(q & Hq & Hkeep)].
      * destruct (keep p) as [k|] eqn:Hp; [|by left].
        apply elem_of_union in Hx as [Hx|Hx]; [|by left].
        apply elem_of_singleton in Hx as ->. right. exists p. split; [left|done].
      * right. exists q. split; [by right|done].
    + intros [Hx|(q & Hq & Hkeep)].
      * left. destruct (keep p); [|done]. apply elem_of_union. by right.
      * apply elem_of_cons in Hq as [->|Hq].
        -- left. rewrite Hkeep. apply elem_of_union. left. by apply elem_of_singleton.
        -- right. by exists q.
Qed.



Lemma answers_unfold a uuid n0 k :
  patterns_of a (n0 + k) uuid (sent_cursor (answers a uuid n0) k) = answers a uuid n0 k.
Proof. by destruct k. Qed.


(** C3 fails on [check_missing_rules.py]: on a platform that serves two
    pages, [get_codacy_patterns] sends one request and returns the keys of
    the first page only, where the loop of [get_default_patterns.py]
    follows the cursor and returns the keys of both pages. *)
Theorem get_codacy_patterns_reads_one_page :
  CheckMissingRules.get_codacy_patterns two_page_api 0
    = (Done ["S1"], [Call (GetPatterns SONAR_UUID None) true]) ∧
  ∃ all_patterns,
    GetDefaultPatterns.get_all_sonarc_patterns two_page_api 2 0
      = (Done all_patterns,
         [Call (GetPatterns SONAR_UUID None) true;
          Call (GetPatterns SONAR_UUID (Some "c1")) true]) ∧
    elements all_patterns ≡ₚ ["S1"; "S2"].
Proof.
  split; [by vm_compute|].
  eexists. split; [reflexivity|]. vm_compute. first [reflexivity | apply Permutation_swap].
Qed.

End Pagination.

Section Mapping.
Import Importer.

Lemma tool_name_of_known r :
  tool_name_of (repository_key r) =
  if decide (known_repository r) then Some "SonarC#" else None.
Proof.
  unfold tool_name_of, known_repository.
  destruct (decide (repository_key r = Some "csharpsquid")) as [H1|H1].
  - by rewrite decide_True by by left.
  - destruct (decide (repository_key r = Some "roslyn.sonaranalyzer.security.cs"))
      as [H2|H2].
    + by rewrite decide_True by by right.
    + by rewrite decide_False by tauto.
Qed.

Lemma map_rule_tool_dict available l r :
  map_rule available (tool_dict l) r =
  tool_dict (l ++ if decide (matched available r) then [pattern_config_of r] else []).
Proof.
  unfold map_rule. rewrite tool_name_of_known.
  destruct (decide (matched available r)) as [[Hknown Hin]|Hno].
  - rewrite !decide_True by done.
    destruct l as [|c l]; simpl.
    + by rewrite lookup_empty, insert_empty.
    + by rewrite lookup_singleton_eq, insert_singleton_eq.
  - rewrite app_nil_r.
    destruct (decide (known_repository r)) as [Hknown|]; [|done].
    rewrite decide_False; [done|]. intros Hin. by apply Hno.
Qed.

Lemma foldl_map_rule available rules l :
  foldl (map_rule available) (tool_dict l) rules =
  tool_dict (l ++ (pattern_config_of <$> filter (matched available) rules)).
Proof.
  revert l. induction rules as [|r rules IH]; intros l; simpl.
  - by rewrite app_nil_r.
  - rewrite map_rule_tool_dict, IH, filter_cons.
    destruct (decide (matched available r)); simpl.
    + by rewrite <- app_assoc.
    + by rewrite app_nil_r.
Qed.

Lemma map_rules_tool_dict available rules :
  map_rules available rules =
  tool_dict (pattern_config_of <$> filter (matched available) rules).
Proof. apply (foldl_map_rule available rules []). Qed.

Lemma map_rules_lookup available rules tool_name patterns :
  map_rules available rules !! tool_name = Some patterns →
  tool_name = "SonarC#" ∧
  patterns = pattern_config_of <$> filter (matched available) rules.
Proof.
  rewrite map_rules_tool_dict.
  destruct (pattern_config_of <$> filter (matched available) rules) as [|c l]; simpl.
  - by rewrite lookup_empty.
  - intros Hlookup. apply lookup_singleton_Some in Hlookup as [<- <-]. done.
Qed.

Lemma filter_nothing {A} (P : A → Prop) `{∀ x, Decision (P x)} (l : list A) :
  (∀ x, x ∈ l → ¬ P x) → filter P l = [].
Proof.
  induction l as [|x l IH]; intros Hl; [done|].
  rewrite filter_cons_False by (apply Hl; left). apply IH. intros y Hy. apply Hl. by right.
Qed.

Lemma filter_eq_NoDup (l : list string) p :
  NoDup l → p ∈ l → filter (λ x, x = p) l = [p].
Proof.
  induction 1 as [|x l Hx Hl IH]; intros Hp; [by apply elem_of_nil in Hp|].
  rewrite filter_cons. destruct (decide (x = p)) as [->|Hne].
  - f_equal. apply filter_nothing. by intros y Hy ->.
  - apply IH. apply elem_of_cons in Hp as [->|Hp]; done.
Qed.

(** The payload of [_enable_tool_patterns] for the patterns of the matched
    rules: who is enabled, who is disabled, and how often. *)
Lemma comprehensive_patterns_spec available rules all :
  let payload :=
    comprehensive_patterns
      (pattern_config_of <$> filter (matched available) rules) all in
  (∀ c, c ∈ payload ∧ config_enabled c = true ↔
        ∃ r, r ∈ rules ∧ matched available r ∧ c = pattern_config_of r) ∧
  (∀ c, c ∈ payload → config_enabled c = false →
        c = PatternConfig (config_id c) false None ∧ config_id c ∈ all ∧
        ¬ ∃ r, r ∈ rules ∧ matched available r ∧ pattern_id_of (key r) = config_id c) ∧
  (∀ p, p ∈ all →
        (¬ ∃ r, r ∈ rules ∧ matched available r ∧ pattern_id_of (key r) = p) →
        filter (λ c, config_id c = p) payload = [PatternConfig p false None]).
Proof.
  intros payload. subst payload. unfold comprehensive_patterns.
  set (patterns := pattern_config_of <$> filter (matched available) rules).
  set (disabled := filter (λ pid, pid ∉ (list_to_set (config_id <$> patterns) : gset string))
                          (elements all)).
  assert (∀ c, c ∈ patterns ↔
               ∃ r, r ∈ rules ∧ matched available r ∧ c = pattern_config_of r) as Hpatterns.
  { intros c. unfold patterns. rewrite list_elem_of_fmap. split.
    - intros (r & -> & Hr). apply list_elem_of_filter in Hr as [Hm Hr]. by exists r.
    - intros (r & Hr & Hm & ->). exists r. split; [done|]. by apply list_elem_of_filter. }
  assert (∀ p, p ∈ disabled ↔
               p ∈ all ∧
               ¬ ∃ r, r ∈ rules ∧ matched available r ∧ pattern_id_of (key r) = p)
    as Hdisabled.
  { intros p. unfold disabled.
    rewrite list_elem_of_filter, elem_of_list_to_set, elem_of_elements, list_elem_of_fmap.
    split.
    - intros [Hout Hall]. split; [done|]. intros (r & Hr & Hm & <-). apply Hout.
      exists (pattern_config_of r). split; [done|]. apply Hpatterns. by exists r.
    - intros [Hall Hno]. split; [|done]. intros (c & -> & Hc).
      apply Hpatterns in Hc as (r & Hr & Hm & ->). apply Hno. by exists r. }
  split; [|split].
  - intros c. rewrite elem_of_app, list_elem_of_fmap, <- Hpatterns. split.
    + intros [[Hc|(p & -> & _)] Henabled]; done.
    + intros Hc. split; [by left|].
      apply Hpatterns in Hc as (r & _ & _ & ->). done.
  - intros c Hc Hoff. apply elem_of_app in Hc as [Hc|Hc].
    + apply Hpatterns in Hc as (r & _ & _ & ->). done.
    + apply list_elem_of_fmap in Hc as (p & -> & Hp). simpl.
      apply Hdisabled in Hp as [Hall Hno]. done.
  - intros p Hall Hno. rewrite filter_app.
    rewrite (filter_nothing _ patterns).
    2:{ intros c Hc Hid. apply Hpatterns in Hc as (r & Hr & Hm & ->).
        apply Hno. by exists r. }
    simpl.
    assert (∀ l : list string, filter (λ c, config_id c = p)
                   ((λ pattern_id, PatternConfig pattern_id false None) <$> l)
                 = (λ pattern_id, PatternConfig pattern_id false None)
                     <$> filter (λ x, x = p) l) as Hfmap.
    { induction l as [|x l IH]; [done|]. rewrite fmap_cons, !filter_cons. simpl.
      destruct (decide (x = p)); by rewrite IH. }
    rewrite Hfmap, filter_eq_NoDup; [done| |by apply Hdisabled].
    apply NoDup_filter, NoDup_elements.
Qed.

Lemma elem_of_bind_trace {A B} (m : M A) (f : A → M B) n e :
  e ∈ ((m ≫= f) n).2 →
  e ∈ (m n).2 ∨ ∃ a t1, m n = (Done a, t1) ∧ e ∈ (f a (n + calls t1)).2.
Proof.
  destruct ((m ≫= f) n) as [r t] eqn:Hrun. simpl. intros He.
  apply bind_inv in Hrun as [(a & t1 & t2 & Hm & Hf & ->)|(r0 & Hm & _)].
  - apply elem_of_app in He as [He|He].
    + left. by rewrite Hm.
    + right. exists a, t1. split; [done|]. by rewrite Hf.
  - left. by rewrite Hm.
Qed.

Lemma paginate_events a uuid keep warning fuel cur all n e :
  e ∈ (paginate a uuid keep warning fuel cur all n).2 →
  (∃ c ok, e = Call (GetPatterns uuid c) ok) ∨ ∃ line, e = Log line.
Proof.
  revert cur all n. induction fuel as [|fuel IH]; intros cur all n; simpl.
  - intros He. by apply elem_of_nil in He.
  - intros He. apply elem_of_bind_trace in He as [He|(h & t1 & Hcall & He)].
    + apply list_elem_of_singleton in He as ->. left. by eexists _, _.
    + destruct h as [pg|].
      * destruct (Py.truthy (cursor pg)); [by apply IH in He|].
        by apply elem_of_nil in He.
      * apply elem_of_cons in He as [->|He]; [right; by eexists|].
        by apply elem_of_nil in He.
Qed.

Lemma enable_tool_patterns_patch a fuel sid uuid patterns n s u pats ok :
  Call (PatchTool s u true pats) ok
    ∈ (_enable_tool_patterns a fuel sid uuid patterns n).2 →
  s = sid ∧ u = uuid ∧
  ∃ all, (_get_all_tool_patterns a fuel uuid n).1 = Done all ∧
         pats = comprehensive_patterns patterns all.
Proof.
  intros He. apply elem_of_bind_trace in He as [He|(all & t1 & Hall & He)].
  - apply paginate_events in He as [(c & ok' & [=])|(line & [=])].
  - apply elem_of_bind_trace in He as [He|(h & t2 & _ & He)].
    + apply list_elem_of_singleton in He as [= -> -> ->].
      split; [done|]. split; [done|]. exists all. by rewrite Hall.
    + destruct h as [[]|].
      * by apply elem_of_nil in He.
      * apply elem_of_cons in He as [[=]|He]. by apply elem_of_nil in He.
Qed.

Lemma enable_tools_patch a fuel tool_uuids sid items count n s u pats ok :
  Call (PatchTool s u true pats) ok
    ∈ (enable_tools a fuel tool_uuids sid items count n).2 →
  ∃ tool_name patterns all n',
    (tool_name, patterns) ∈ items ∧
    tool_uuids !! Py.lower tool_name = Some u ∧ s = sid ∧
    (_get_all_tool_patterns a fuel u n').1 = Done all ∧
    pats = comprehensive_patterns patterns all.
Proof.
  revert count n. induction items as [|[tool_name patterns] items IH];
    intros count n He; cbn [enable_tools] in He.
  - by apply elem_of_nil in He.
  - assert (∀ count' n',
      Call (PatchTool s u true pats) ok
        ∈ (enable_tools a fuel tool_uuids sid items count' n').2 →
      ∃ tool_name0 patterns0 all n'',
        (tool_name0, patterns0) ∈ (tool_name, patterns) :: items ∧
        tool_uuids !! Py.lower tool_name0 = Some u ∧ s = sid ∧
        (_get_all_tool_patterns a fuel u n'').1 = Done all ∧
        pats = comprehensive_patterns patterns0 all) as Hrest.
    { intros count' n' He'.
      destruct (IH count' n' He') as (tn & ps & all & n'' & Hin & Hrest).
      exists tn, ps, all, n''. split; [by right|done]. }
    destruct (tool_uuids !! Py.lower tool_name) as [uuid|] eqn:Huuid; [|by eapply Hrest].
    destruct (Py.truthy (Some uuid)); [|by eapply Hrest].
    apply elem_of_bind_trace in He as [He|(success & t1 & _ & He)]; [|by eapply Hrest].
    apply enable_tool_patterns_patch in He as (-> & -> & all & Hall & ->).
    exists tool_name, patterns, all, n. split; [left|done].
Qed.

Lemma pattern_config_of_fields r c :
  c = pattern_config_of r ↔
  config_id c = pattern_id_of (key r) ∧ config_enabled c = true ∧
  config_parameters c =
    match parameters r with
    | [] => None
    | ps => Some ((λ kv, NameValue kv.1 kv.2) <$> ps)
    end.
Proof.
  split; [by intros ->|]. destruct c as [id enabled params]. simpl.
  by intros (-> & -> & ->).
Qed.

(** C1, amended. Whenever [enable_sonar_rules] sends the enabling PATCH,
    it is for the SonarC# tool, and with the patterns retrieved by
    [_get_available_patterns] and [_get_all_tool_patterns]: an entry of
    the payload is enabled if and only if it is the entry of an XML rule
    of a known repository whose pattern id is available, with the
    parameters of the rule as name/value pairs (no field when the rule has
    none); every other pattern id of the tool occurs exactly once,
    disabled; every disabled entry is such an id without parameters. *)
Theorem enable_payload_matched_rules a fuel rules tool_uuids sid n s u pats ok :
  Call (PatchTool s u true pats) ok
    ∈ (enable_sonar_rules a fuel rules tool_uuids sid n).2 →
  ∃ available all n',
    (_get_available_patterns a fuel n).1 = Done available ∧
    (_get_all_tool_patterns a fuel u n').1 = Done all ∧
    s = sid ∧ tool_uuids !! "sonarc#" = Some u ∧
    (∀ c, c ∈ pats ∧ config_enabled c = true ↔
          ∃ r, r ∈ rules ∧ known_repository r ∧
               pattern_id_of (key r) ∈ available ∧
               config_id c = pattern_id_of (key r) ∧ config_enabled c = true ∧
               config_parameters c =
                 match parameters r with
                 | [] => None
                 | ps => Some ((λ kv, NameValue kv.1 kv.2) <$> ps)
                 end) ∧
    (∀ p, p ∈ all →
          (¬ ∃ r, r ∈ rules ∧ known_repository r ∧
                  pattern_id_of (key r) ∈ available ∧ pattern_id_of (key r) = p) →
          filter (λ c, config_id c = p) pats = [PatternConfig p false None]) ∧
    (∀ c, c ∈ pats → config_enabled c = false →
          c = PatternConfig (config_id c) false None ∧ config_id c ∈ all).
Proof.
  intros He. apply elem_of_bind_trace in He as [He|(tool_patterns & t1 & Hmap & He)].
  { apply elem_of_bind_trace in He as [He|(available & t0 & _ & He)].
    - apply paginate_events in He as [(c & ok' & [=])|(line & [=])].
    - by apply elem_of_nil in He. }
  apply enable_tools_patch in He
    as (tool_name & patterns & all & n' & Hitem & Huuid & -> & Hall & ->).
  apply bind_inv in Hmap as [(available & t0 & t2 & Havailable & Hret & ->)|(r0 & _ & Hstop)];
    [|by destruct r0].
  injection Hret as <- _.
  apply elem_of_map_to_list in Hitem.
  apply map_rules_lookup in Hitem as [-> ->].
  destruct (comprehensive_patterns_spec available rules all) as (Hon & Hoff & Honce).
  exists available, all, n'.
  split; [by rewrite Havailable|]. split; [done|]. split; [done|]. split; [done|].
  split; [|split].
  - intros c. rewrite Hon. split.
    + intros (r & Hr & [Hknown Hin] & Hc). exists r.
      apply pattern_config_of_fields in Hc. tauto.
    + intros (r & Hr & Hknown & Hin & Hfields). exists r.
      split; [done|]. split; [done|]. by apply pattern_config_of_fields.
  - intros p Hp Hno. apply Honce; [done|].
    intros (r & Hr & [Hknown Hin] & Hid). apply Hno. by exists r.
  - intros c Hc Hdisabled. destruct (Hoff c Hc Hdisabled) as (Heq & Hin & _). done.
Qed.

(** C1, amended, at the sample export on a platform where every call
    succeeds. *)
Lemma enable_payload_matched_rules_witness :
  Call (PatchTool "42" "u1" true
          [PatternConfig "SonarCSharp_S2" true None;
           PatternConfig "SonarCSharp_S1" false None]) true
    ∈ (enable_sonar_rules steady_api 3 sample_rules {[ "sonarc#" := "u1" ]} "42" 4).2 ∧
  ∃ available all n',
    (_get_available_patterns steady_api 3 4).1 = Done available ∧
    (_get_all_tool_patterns steady_api 3 "u1" n').1 = Done all ∧
    filter (λ c, config_id c = "SonarCSharp_S1")
      [PatternConfig "SonarCSharp_S2" true None;
       PatternConfig "SonarCSharp_S1" false None]
      = [PatternConfig "SonarCSharp_S1" false None].
Proof.
  assert (Call (PatchTool "42" "u1" true
                  [PatternConfig "SonarCSharp_S2" true None;
                   PatternConfig "SonarCSharp_S1" false None]) true
            ∈ (enable_sonar_rules steady_api 3 sample_rules
                 {[ "sonarc#" := "u1" ]} "42" 4).2) as Hsent.
  { apply list_elem_of_lookup_2 with 2. by vm_compute. }
  split; [exact Hsent|].
  destruct (enable_payload_matched_rules _ _ _ _ _ _ _ _ _ _ Hsent)
    as (available & all & n' & Havailable & Hall & _ & _ & _ & _ & _).
  exists available, all, n'. split; [done|]. split; [done|]. by vm_compute.
Defined.

(** C1 as stated fails: rule S1 of the export has an available pattern
    id, but its repository is unknown, and the pattern is sent disabled. *)
Lemma unknown_repository_rule_sent_disabled :
  parse_sonar_xml (Parsed sample_profile) 0 = (Done sample_rules, []) ∧
  (∃ available,
     (_get_available_patterns steady_api 3 4).1 = Done available ∧
     "SonarCSharp_S1" ∈ available) ∧
  (main steady_api 3 "Imported Sonar Rules" (Parsed sample_profile)).1 = Some 0 ∧
  (main steady_api 3 "Imported Sonar Rules" (Parsed sample_profile)).2 !! 7
    = Some (Call (PatchTool "42" "u1" true
                    [PatternConfig "SonarCSharp_S2" true None;
                     PatternConfig "SonarCSharp_S1" false None]) true).
Proof.
  split; [by vm_compute|]. split; [|split; by vm_compute].
  exists (list_to_set ["SonarCSharp_S1"; "SonarCSharp_S2"]).
  split; [by vm_compute|]. apply elem_of_list_to_set. left.
Qed.

End Mapping.

Section PrefixStripping.

Lemma replace_go_no_occurrence old new s :
  occurs old s = false → Py.replace_go old new 0 s = s.
Proof.
  induction s as [|c s IH]; [done|]. intros Hocc.
  cbn [occurs] in Hocc. apply orb_false_iff in Hocc as [Hhere Hlater].
  cbn [Py.replace_go]. rewrite Hhere. f_equal. by apply IH.
Qed.

Lemma replace_go_skip old new p s :
  Py.replace_go old new (String.length p) (p +:+ s) = Py.replace_go old new 0 s.
Proof. induction p as [|c p IH]; [done|]. simpl. apply IH. Qed.

Lemma substring_all s : String.substring 0 (String.length s) s = s.
Proof. induction s as [|c s IH]; [done|]. simpl. by rewrite IH. Qed.

Lemma substring_skip p s n :
  String.substring (String.length p) n (p +:+ s) = String.substring 0 n s.
Proof. induction p as [|c p IH]; [done|]. simpl. apply IH. Qed.

Lemma prefix_app p s : String.prefix p (p +:+ s) = true.
Proof.
  induction p as [|c p IH]; simpl; [by destruct s|].
  destruct (Ascii.ascii_dec c c); [done|congruence].
Qed.

Lemma replace_go_prefix old new s :
  old ≠ "" →
  Py.replace_go old new 0 (old +:+ s) = new +:+ Py.replace_go old new 0 s.
Proof.
  destruct old as [|c old]; [done|]. intros _.
  change (String c old +:+ s) with (String c (old +:+ s)).
  cbn [Py.replace_go].
  change (String c (old +:+ s)) with (String c old +:+ s).
  rewrite prefix_app. f_equal.
  replace (String.length (String c old) - 1) with (String.length old)
    by (simpl; lia).
  apply replace_go_skip.
Qed.

(** Where the rest of the id does not contain the prefix again, the code
    does what its comment says. *)
Lemma rule_key_of_single_prefix key :
  occurs PREFIX key = false →
  rule_key_of (PREFIX +:+ key) = Some key ∧
  strip_prefix (PREFIX +:+ key) = Some key.
Proof.
  intros Hocc. unfold rule_key_of, strip_prefix, Py.startswith.
  rewrite prefix_app. split; f_equal.
  - unfold Py.replace. rewrite replace_go_prefix by (unfold PREFIX; discriminate).
    cbn [String.append]. by apply replace_go_no_occurrence.
  - rewrite string_length_app, substring_skip.
    replace (String.length PREFIX + String.length key - String.length PREFIX)
      with (String.length key) by lia.
    apply substring_all.
Qed.

(** An id that does not start with the prefix is not accumulated. *)
Lemma rule_key_of_None pattern_id :
  rule_key_of pattern_id = None ↔ Py.startswith pattern_id PREFIX = false.
Proof. unfold rule_key_of. by destruct (Py.startswith pattern_id PREFIX). Qed.

End PrefixStripping.

(** C8 at a platform that knows the default name and its first numbered
    variant. *)
Lemma unique_name_is_fresh_and_least_witness :
  standards_of named_api 0 = Ok ["Imported Sonar Rules"; "Imported Sonar Rules (1)"] ∧
  ∃ name,
    Importer._get_unique_standard_name named_api "Imported Sonar Rules" 0
      = (Done name, [Call GetStandards true]) ∧
    (name ∉ ["Imported Sonar Rules"; "Imported Sonar Rules (1)"]).
Proof.
  split; [reflexivity|].
  destruct (unique_name_is_fresh_and_least named_api "Imported Sonar Rules" 0
              ["Imported Sonar Rules"; "Imported Sonar Rules (1)"] eq_refl)
    as (name & Hrun & Hfresh & _).
  exists name. split; [exact Hrun|exact Hfresh].
Defined.

Example unique_name_skips_taken_numbers :
  Importer._get_unique_standard_name named_api "Imported Sonar Rules" 0
    = (Done "Imported Sonar Rules (2)", [Call GetStandards true]).
Proof. by vm_compute. Qed.


Section Payload.
Import Importer.

(** X4. The payload of [_enable_tool_patterns], whatever patterns it is given:
    it starts with the given patterns, every pattern id of the tool is in
    it, what follows the given patterns is one disabled entry without
    parameters per id of the tool that is not the id of a given pattern,
    and no id is both among the given patterns and disabled. *)
Theorem comprehensive_patterns_covers_tool patterns (all : gset string) :
  let payload := comprehensive_patterns patterns all in
  (∀ p, p ∈ all → ∃ c, c ∈ payload ∧ config_id c = p) ∧
  (∃ disabled,
     payload = patterns ++ ((λ p, PatternConfig p false None) <$> disabled) ∧
     NoDup disabled ∧
     ∀ p, p ∈ disabled ↔ p ∈ all ∧ ∀ c, c ∈ patterns → config_id c ≠ p) ∧
  length payload =
    length patterns + size (all ∖ list_to_set (config_id <$> patterns)).
Proof.
  intros payload. subst payload. unfold comprehensive_patterns.
  set (ids := list_to_set (config_id <$> patterns) : gset string).
  set (disabled := filter (λ p, p ∉ ids) (elements all)).
  assert (∀ p, p ∈ ids ↔ ∃ c, c ∈ patterns ∧ config_id c = p) as Hids.
  { intros p. unfold ids. rewrite elem_of_list_to_set, list_elem_of_fmap. split.
    - intros (c & -> & Hc). by exists c.
    - intros (c & Hc & <-). by exists c. }
  assert (∀ p, p ∈ disabled ↔ p ∈ all ∧ ∀ c, c ∈ patterns → config_id c ≠ p) as Hdisabled.
  { intros p. unfold disabled. rewrite list_elem_of_filter, elem_of_elements, Hids.
    split.
    - intros [Hno Hall]. split; [done|]. intros c Hc Hid. apply Hno. by exists c.
    - intros [Hall Hno]. split; [|done]. intros (c & Hc & Hid). by apply (Hno c). }
  split; [|split].
  - intros p Hp. destruct (decide (p ∈ ids)) as [Hin|Hout].
    + apply Hids in Hin as (c & Hc & Hid). exists c. split; [|done].
      apply elem_of_app. by left.
    + exists (PatternConfig p false None). split; [|done].
      apply elem_of_app. right. apply list_elem_of_fmap. exists p. split; [done|].
      apply list_elem_of_filter. split; [done|]. by apply elem_of_elements.
  - exists disabled. split; [done|]. split; [|done].
    apply NoDup_filter, NoDup_elements.
  - rewrite length_app, length_fmap. f_equal.
    rewrite <- (size_list_to_set (C := gset string) disabled)
      by (apply NoDup_filter, NoDup_elements).
    f_equal. apply set_eq. intros p.
    rewrite elem_of_list_to_set, elem_of_difference. unfold disabled.
    rewrite list_elem_of_filter, elem_of_elements. tauto.
Qed.

End Payload.

Section Reports.
Import Importer.

Lemma filter_partition_Permutation {A} (P : A → Prop) `{∀ x, Decision (P x)} (l : list A) :
  filter P l ++ filter (λ x, ¬ P x) l ≡ₚ l.
Proof.
  induction l as [|x l IH]; [done|].
  rewrite !filter_cons. destruct (decide (P x)) as [Hx|Hx].
  - rewrite decide_False by tauto. simpl. by rewrite IH.
  - rewrite decide_True by done. rewrite <- Permutation_middle. by rewrite IH.
Qed.

(** X6. The two lists behind the output files: together they are the rules of
    the XML, each rule in one of them; a rule is listed as enabled exactly
    when its pattern id is among the patterns retrieved for the files,
    whatever its repository, so the rules that the payload of the PATCH
    would enable for these patterns are the listed ones of a known
    repository only. *)
Theorem generate_output_files_partition a fuel rules n enabled skipped t :
  _generate_output_files a fuel rules n = (Done (enabled, skipped), t) →
  ∃ available,
    _get_available_patterns a fuel n = (Done available, t) ∧
    enabled ++ skipped ≡ₚ rules ∧
    length enabled + length skipped = length rules ∧
    (∀ r, r ∈ enabled ↔ r ∈ rules ∧ pattern_id_of (key r) ∈ available) ∧
    (∀ r, r ∈ skipped ↔ r ∈ rules ∧ pattern_id_of (key r) ∉ available) ∧
    filter known_repository enabled = filter (matched available) rules.
Proof.
  intros Hrun.
  apply bind_inv in Hrun as [(available & t1 & t2 & Havailable & Hret & ->)|(r0 & _ & Hstop)];
    [|by destruct r0].
  injection Hret as <- <- <-. exists available. rewrite app_nil_r.
  split; [done|].
  pose proof (filter_partition_Permutation
                (λ r, pattern_id_of (key r) ∈ available) rules) as Hperm.
  split; [done|]. split.
  { rewrite <- length_app. by rewrite Hperm. }
  split; [intros r; rewrite list_elem_of_filter; tauto|].
  split; [intros r; rewrite list_elem_of_filter; tauto|].
  rewrite list_filter_filter. apply list_filter_iff. intros r. unfold matched. tauto.
Qed.

Lemma generate_output_files_partition_witness :
  _generate_output_files steady_api 3 sample_rules 0
    = (Done (sample_rules, []), [Call (GetPatterns SONAR_UUID None) true]) ∧
  ∃ available,
    _get_available_patterns steady_api 3 0
      = (Done available, [Call (GetPatterns SONAR_UUID None) true]) ∧
    filter known_repository sample_rules = filter (matched available) sample_rules.
Proof.
  assert (_generate_output_files steady_api 3 sample_rules 0
            = (Done (sample_rules, []), [Call (GetPatterns SONAR_UUID None) true]))
    as Hrun by (by vm_compute).
  split; [exact Hrun|].
  destruct (generate_output_files_partition _ _ _ _ _ _ _ Hrun)
    as (available & Havailable & _ & _ & _ & _ & Hknown).
  exists available. split; [exact Havailable|exact Hknown].
Defined.

End Reports.

Section EnabledCount.
Import Importer.

Lemma paginate_no_patch a uuid keep warning fuel cur all n s u en pats ok :
  Call (PatchTool s u en pats) ok ∉ (paginate a uuid keep warning fuel cur all n).2.
Proof.
  intros He. by apply paginate_events in He as [(c & ok' & [=])|(line & [=])].
Qed.

(** X5. The number of rules [enable_sonar_rules] reports as enabled: the number
    of matched rules when the enabling PATCH was sent and succeeded, and
    0 in every other case (no matched rule, the SonarC# tool is unknown,
    or the PATCH failed). *)
Theorem enable_sonar_rules_count a fuel rules tool_uuids sid n count t :
  enable_sonar_rules a fuel rules tool_uuids sid n = (Done count, t) →
  ∃ available,
    (_get_available_patterns a fuel n).1 = Done available ∧
    (((∃ u pats, Call (PatchTool sid u true pats) true ∈ t) ∧
      count = length (filter (matched available) rules)) ∨
     ((∀ s u pats, Call (PatchTool s u true pats) true ∉ t) ∧ count = 0)).
Proof.
  intros Hrun.
  apply bind_inv in Hrun as [(tool_patterns & t1 & t2 & Hmap & Htools & ->)|(r0 & _ & Hstop)];
    [|by destruct r0].
  apply bind_inv in Hmap as [(available & t0 & t0' & Havailable & Hret & ->)|(r0 & _ & Hstop)];
    [|by destruct r0].
  injection Hret as <- <-. rewrite app_nil_r in *.
  exists available. split; [by rewrite Havailable|].
  assert (∀ s u pats, Call (PatchTool s u true pats) true ∉ t0) as Hquiet.
  { intros s u pats He.
    apply (paginate_no_patch a SONAR_UUID keep_id
             "Warning: Could not retrieve available patterns" fuel None ∅ n
             s u true pats true).
    unfold _get_available_patterns in Havailable. by rewrite Havailable. }
  rewrite map_rules_tool_dict in Htools.
  destruct (pattern_config_of <$> filter (matched available) rules)
    as [|c l] eqn:Hmatched; simpl in Htools.
  { rewrite map_to_list_empty in Htools. injection Htools as <- <-.
    right. split; [|done]. intros s u pats He. rewrite app_nil_r in He.
    by apply (Hquiet s u pats). }
  rewrite map_to_list_singleton in Htools. cbn [enable_tools] in Htools.
  change (Py.lower "SonarC#") with "sonarc#" in Htools.
  destruct (tool_uuids !! "sonarc#") as [uuid|].
  2:{ simpl in Htools. injection Htools as <- <-. right. split; [|done].
      intros s u pats He. rewrite app_nil_r in He. by apply (Hquiet s u pats). }
  destruct (Py.truthy (Some uuid)).
  2:{ simpl in Htools. injection Htools as <- <-. right. split; [|done].
      intros s u pats He. rewrite app_nil_r in He. by apply (Hquiet s u pats). }
  apply bind_inv in Htools as [(success & t3 & t4 & Hpatch & Hret & ->)|(r0 & _ & Hstop)];
    [|by destruct r0].
  injection Hret as <- <-. rewrite app_nil_r.
  apply bind_inv in Hpatch as [(all & t5 & t6 & Hall & Hsend & ->)|(r0 & _ & Hstop)];
    [|by destruct r0].
  assert (∀ s u pats, Call (PatchTool s u true pats) true ∉ t5) as Hquiet'.
  { intros s u pats He.
    apply (paginate_no_patch a uuid keep_id
             "Warning: Could not retrieve all patterns for tool" fuel None ∅
             (n + calls t0) s u true pats true).
    unfold _get_all_tool_patterns in Hall. by rewrite Hall. }
  rewrite bind_unfold in Hsend. unfold call in Hsend.
  destruct (patch_of a _ sid uuid true _) as [[]|]; simpl in Hsend;
    injection Hsend as <- <-.
  - left. split.
    + eexists uuid, _. rewrite !elem_of_app. right. right. left.
    + rewrite <- (length_fmap pattern_config_of), Hmatched. done.
  - right. split; [|done]. intros s u pats He.
    rewrite !elem_of_app in He. destruct He as [He|[He|He]].
    + by apply (Hquiet s u pats).
    + by apply (Hquiet' s u pats).
    + apply elem_of_cons in He as [[=]|He].
      apply elem_of_cons in He as [[=]|He]. by apply elem_of_nil in He.
Qed.

Lemma enable_sonar_rules_count_witness :
  enable_sonar_rules steady_api 3 sample_rules {[ "sonarc#" := "u1" ]} "42" 4
    = (Done 1,
       [Call (GetPatterns SONAR_UUID None) true;
        Call (GetPatterns "u1" None) true;
        Call (PatchTool "42" "u1" true
                [PatternConfig "SonarCSharp_S2" true None;
                 PatternConfig "SonarCSharp_S1" false None]) true]) ∧
  ∃ available,
    (_get_available_patterns steady_api 3 4).1 = Done available ∧
    1 = length (filter (matched available) sample_rules).
Proof.
  assert (enable_sonar_rules steady_api 3 sample_rules {[ "sonarc#" := "u1" ]} "42" 4
    = (Done 1,
       [Call (GetPatterns SONAR_UUID None) true;
        Call (GetPatterns "u1" None) true;
        Call (PatchTool "42" "u1" true
                [PatternConfig "SonarCSharp_S2" true None;
                 PatternConfig "SonarCSharp_S1" false None]) true])) as Hrun
    by (by vm_compute).
  split; [exact Hrun|].
  destruct (enable_sonar_rules_count _ _ _ _ _ _ _ _ Hrun)
    as (available & Havailable & [[_ Hcount]|[Hnone _]]).
  - exists available. split; [exact Havailable|exact Hcount].
  - exfalso. eapply Hnone. do 2 right. left.
Defined.

End EnabledCount.

Section Retrievals.

Lemma add_page_list_to_set keep (patterns : list pattern) :
  add_page keep ∅ patterns = list_to_set (omap keep patterns).
Proof.
  apply set_eq. intros x.
  rewrite elem_of_add_page, elem_of_list_to_set, list_elem_of_omap.
  split; [intros [Hx|Hx]; [by apply not_elem_of_empty in Hx|done]|by right].
Qed.

(** X7. On a platform whose first page of patterns carries no cursor and
    gives every pattern an id, the single request of
    [check_missing_rules.py] and the loop of [get_default_patterns.py]
    send the same request and retrieve the same rule keys. (The two
    scripts guard the id differently, [pattern.get('id', '')] against
    [pattern.get('id')] and a truth test; on ids that are strings, the
    empty one included, the guards agree.) *)
Theorem single_page_retrievals_agree a n fuel pg :
  patterns_of a n SONAR_UUID None = Ok pg →
  Py.truthy (cursor pg) = false →
  Forall (λ p, is_Some (pattern_id p)) (data pg) →
  ∃ keys all_patterns,
    CheckMissingRules.get_codacy_patterns a n
      = (Done keys, [Call (GetPatterns SONAR_UUID None) true]) ∧
    GetDefaultPatterns.get_all_sonarc_patterns a (S fuel) n
      = (Done all_patterns, [Call (GetPatterns SONAR_UUID None) true]) ∧
    list_to_set keys = all_patterns.
Proof.
  intros Hpage Hcursor Hids.
  unfold CheckMissingRules.get_codacy_patterns,
    GetDefaultPatterns.get_all_sonarc_patterns. cbn [paginate Py.truthy].
  rewrite !bind_unfold. unfold call. rewrite Hpage. cbn [is_ok]. rewrite Hcursor.
  eexists _, _. split; [reflexivity|]. split; [reflexivity|].
  rewrite list_to_set_sorted, add_page_list_to_set. f_equal.
  induction Hids as [|p ps [s Hid] _ IH]; [done|]. cbn [omap list_omap].
  fold (omap keep_rule_key ps).
  fold (omap (λ p, rule_key_of (default "" (pattern_id p))) ps). rewrite IH.
  unfold keep_rule_key. rewrite Hid. cbn [default mbind option_bind Py.truthy].
  destruct (String.eqb_spec s "") as [->|Hs]; done.
Qed.

Lemma single_page_retrievals_agree_witness :
  patterns_of steady_api 0 SONAR_UUID None
    = Ok (Page [Pattern (Some "SonarCSharp_S1") false;
                Pattern (Some "SonarCSharp_S2") false] None) ∧
  ∃ keys all_patterns,
    CheckMissingRules.get_codacy_patterns steady_api 0
      = (Done keys, [Call (GetPatterns SONAR_UUID None) true]) ∧
    GetDefaultPatterns.get_all_sonarc_patterns steady_api 1 0
      = (Done all_patterns, [Call (GetPatterns SONAR_UUID None) true]) ∧
    list_to_set keys = all_patterns.
Proof.
  split; [reflexivity|].
  apply (single_page_retrievals_agree steady_api 0 0
           (Page [Pattern (Some "SonarCSharp_S1") false;
                  Pattern (Some "SonarCSharp_S2") false] None));
    [reflexivity|reflexivity|].
  repeat constructor; by eexists.
Defined.

End Retrievals.

Section Verification.
Import VerifyCodingStandard.

(** X8. What [get_enabled_patterns_in_standard] returns: the rule keys of the
    patterns of the tool configuration that are enabled and whose id
    starts with the prefix; nothing when the request fails, so that a
    failed request makes [main] report every XML rule as missing, none as
    matching, and a success rate of zero. *)
Theorem enabled_rule_keys_of_standard root patterns k :
  (k ∈ get_enabled_patterns_in_standard (Ok patterns) ↔
   ∃ p s, p ∈ patterns ∧ pattern_enabled p = true ∧
          pattern_id p = Some s ∧ rule_key_of s = Some k) ∧
  get_enabled_patterns_in_standard Failed = [] ∧
  (let r := reconcile (get_xml_rules root) (get_enabled_patterns_in_standard Failed) in
   (k ∈ missing r ↔ k ∈ xml_rule_keys root) ∧
   matching r = ∅ ∧ extra r = ∅ ∧
   ∀ r' q, main root Failed = Some (r', q) → r' = r ∧ (q == 0)%Q).
Proof.
  split; [|split; [done|]].
  - unfold get_enabled_patterns_in_standard.
    rewrite elem_of_sorted, list_elem_of_omap. split.
    + intros (p & Hp & Hkey). destruct (pattern_enabled p) eqn:Henabled; [|done].
      destruct (pattern_id p) as [s|] eqn:Hid; simpl in Hkey; [|done].
      by exists p, s.
    + intros (p & s & Hp & Henabled & Hid & Hkey). exists p.
      split; [done|]. by rewrite Henabled, Hid.
  - intros r. subst r. simpl. split; [|split; [|split]].
    + unfold get_xml_rules.
      rewrite elem_of_difference, elem_of_list_to_set, elem_of_sorted.
      split; [tauto|]. intros Hk. split; [done|]. apply not_elem_of_empty.
    + apply set_eq. intros x. rewrite elem_of_intersection.
      split; [intros [_ Hx]; by apply not_elem_of_empty in Hx|].
      intros Hx. by apply not_elem_of_empty in Hx.
    + apply set_eq. intros x. rewrite elem_of_difference.
      split; [intros [Hx _]; by apply not_elem_of_empty in Hx|].
      intros Hx. by apply not_elem_of_empty in Hx.
    + intros r' q. unfold main, success_rate. simpl.
      replace (list_to_set (get_xml_rules root) ∩ (∅ : gset string))
        with (∅ : gset string) by (symmetry; apply (right_absorb_L _ _)).
      rewrite size_empty.
      destruct (length (get_xml_rules root)) as [|b]; simpl; [done|].
      intros [= <- <-]. split; [|done]. by f_equal.
Qed.

End Verification.

Section SuccessRate.
Import VerifyCodingStandard.

Lemma NoDup_length_remove_dups (l : list string) :
  length (remove_dups l) = length l → NoDup l.
Proof.
  induction l as [|x l IH]; [constructor|]. simpl.
  pose proof (length_remove_dups_le l) as Hle.
  destruct (decide_rel elem_of x l) as [Hin|Hout]; simpl; intros Hlen; [lia|].
  constructor; [done|]. apply IH. lia.
Qed.

Lemma size_intersection_full (X Y : gset string) :
  size (X ∩ Y) = size X ↔ X ⊆ Y.
Proof.
  split.
  - intros Hsize x Hx.
    assert (X ∩ Y ≡ X) as Heq.
    { apply set_subseteq_size_equiv; [|lia].
      intros y. rewrite elem_of_intersection. tauto. }
    apply Heq in Hx. apply elem_of_intersection in Hx. tauto.
  - intros Hsub. f_equal. apply set_eq. intros x.
    rewrite elem_of_intersection. split; [tauto|]. intros Hx. split; [done|by apply Hsub].
Qed.

(** X9. The success rate of [verify_coding_standard.py], when it is defined:
    it lies between 0 and 100, and it is 100 exactly when no rule key
    occurs twice in the XML and every rule key of the XML is enabled in
    the standard (the rate divides a number of distinct keys by a number
    of keys). *)
Theorem success_rate_bounds root tool r q :
  main root tool = Some (r, q) →
  (0 <= q)%Q ∧ (q <= 100)%Q ∧
  ((q == 100)%Q ↔
   NoDup (xml_rule_keys root) ∧
   ∀ k, k ∈ xml_rule_keys root → k ∈ get_enabled_patterns_in_standard tool).
Proof.
  unfold main, success_rate. simpl.
  set (X := list_to_set (get_xml_rules root) : gset string).
  set (Y := list_to_set (get_enabled_patterns_in_standard tool) : gset string).
  assert (size (X ∩ Y) ≤ size X) as Hinter.
  { apply subseteq_size. intros x. rewrite elem_of_intersection. tauto. }
  assert (size X = length (remove_dups (xml_rule_keys root))) as HX.
  { unfold X, get_xml_rules. by rewrite list_to_set_sorted, size_list_to_set_remove_dups. }
  pose proof (length_remove_dups_le (xml_rule_keys root)) as Hdups.
  unfold get_xml_rules at 2. rewrite length_sorted.
  destruct (length (xml_rule_keys root)) as [|b] eqn:Hb; simpl; [done|].
  intros [= <- <-].
  assert (Z.pos (Pos.of_nat (S b)) = Z.of_nat (S b)) as Hpos by lia.
  split; [|split].
  - unfold Qle, Qmult. simpl. lia.
  - unfold Qle, Qmult. simpl. rewrite Pos.mul_1_r, Hpos. lia.
  - assert ((Z.of_nat (size (X ∩ Y)) # Pos.of_nat (S b)) * 100 == 100
              ↔ size (X ∩ Y) = S b)%Q as ->.
    { unfold Qeq, Qmult. simpl. rewrite Pos.mul_1_r, Hpos. lia. }
    split.
    + intros Hsize.
      assert (size (X ∩ Y) = size X ∧ length (remove_dups (xml_rule_keys root))
                = length (xml_rule_keys root)) as [Hfull Hnodup] by lia.
      split; [by apply NoDup_length_remove_dups|].
      apply size_intersection_full in Hfull. intros k Hk.
      assert (k ∈ Y) as HkY.
      { apply Hfull. unfold X, get_xml_rules.
        by rewrite elem_of_list_to_set, elem_of_sorted. }
      by apply elem_of_list_to_set in HkY.
    + intros [Hnodup Hall].
      assert (X ⊆ Y) as Hsub.
      { intros k. unfold X, Y, get_xml_rules.
        rewrite !elem_of_list_to_set, elem_of_sorted. apply Hall. }
      apply size_intersection_full in Hsub. rewrite Hsub, HX, <- Hb.
      rewrite <- size_list_to_set_remove_dups. by apply size_list_to_set.
Qed.

Lemma success_rate_bounds_witness :
  main (Xml.Element "rules" None
          [Xml.Element "rule" None [Xml.Element "key" (Some "S1") []];
           Xml.Element "rule" None [Xml.Element "key" (Some "S1") []]])
       (Ok [Pattern (Some "SonarCSharp_S1") true])
    = Some (reconcile ["S1"; "S1"] ["S1"], (1 # 2) * 100)%Q ∧
  ((1 # 2) * 100 <= 100)%Q.
Proof.
  assert (main (Xml.Element "rules" None
          [Xml.Element "rule" None [Xml.Element "key" (Some "S1") []];
           Xml.Element "rule" None [Xml.Element "key" (Some "S1") []]])
       (Ok [Pattern (Some "SonarCSharp_S1") true])
    = Some (reconcile ["S1"; "S1"] ["S1"], (1 # 2) * 100)%Q) as Hmain
    by (by vm_compute).
  split; [exact Hmain|].
  by destruct (success_rate_bounds _ _ _ _ Hmain) as (_ & Hle & _).
Defined.

End SuccessRate.

Section Tools.
Import Importer.

Lemma get_tools_foldl_snoc (tools : list tool) (t : tool) (m0 : gmap string string) :
  foldl (λ (tool_uuids : gmap string string) t,
           match tool_uuid t with
           | Some uuid =>
               if Py.truthy (Some uuid)
               then <[Py.lower (default "" (tool_name t)) := uuid]> tool_uuids
               else tool_uuids
           | None => tool_uuids
           end) m0 (tools ++ [t]) =
  let m := foldl (λ (tool_uuids : gmap string string) t,
           match tool_uuid t with
           | Some uuid =>
               if Py.truthy (Some uuid)
               then <[Py.lower (default "" (tool_name t)) := uuid]> tool_uuids
               else tool_uuids
           | None => tool_uuids
           end) m0 tools in
  match tool_uuid t with
  | Some uuid =>
      if Py.truthy (Some uuid)
      then <[Py.lower (default "" (tool_name t)) := uuid]> m
      else m
  | None => m
  end.
Proof. by rewrite foldl_app. Qed.

(** X13. [get_tools] keys the uuids by the lowercased tool name; a tool
    without a uuid, or with an empty one, leaves no entry, and of several
    tools whose names agree up to case the last one with a uuid wins. *)
Theorem get_tools_last_uuid_wins a n tools :
  tools_of a n = Ok tools →
  ∃ tool_uuids,
    get_tools a n = (Done tool_uuids, [Call GetTools true]) ∧
    ∀ k u, tool_uuids !! k = Some u ↔
      ∃ before t after,
        tools = before ++ t :: after ∧
        Py.lower (default "" (tool_name t)) = k ∧
        tool_uuid t = Some u ∧ Py.truthy (Some u) = true ∧
        Forall (λ t', Py.lower (default "" (tool_name t')) = k →
                      Py.truthy (tool_uuid t') = false) after.
Proof.
  intros Htools. unfold get_tools. rewrite bind_unfold. unfold call at 1.
  rewrite Htools. cbn [is_ok]. eexists. split; [reflexivity|].
  clear Htools. induction tools as [|t tools IH] using rev_ind.
  - intros k u. simpl. rewrite lookup_empty. split; [done|].
    intros (before & t & after & Heq & _). by destruct before.
  - intros k u. rewrite get_tools_foldl_snoc. cbv zeta.
    set (m := foldl _ ∅ tools) in *.
    assert (m !! k = Some u ∧ (Py.lower (default "" (tool_name t)) = k →
                               Py.truthy (tool_uuid t) = false) ↔
            ∃ before t0 after,
              tools ++ [t] = before ++ t0 :: after ∧ after ≠ [] ∧
              Py.lower (default "" (tool_name t0)) = k ∧
              tool_uuid t0 = Some u ∧ Py.truthy (Some u) = true ∧
              Forall (λ t', Py.lower (default "" (tool_name t')) = k →
                            Py.truthy (tool_uuid t') = false) after) as Hold.
    { rewrite IH. split.
      - intros [(before & t0 & after & -> & Hk & Hu & Htr & Hafter) Ht].
        exists before, t0, (after ++ [t]). split; [by rewrite <- app_assoc|].
        split; [by destruct after|]. repeat (split; [done|]).
        apply Forall_app. split; [done|]. by constructor.
      - intros (before & t0 & after & Heq & Hne & Hk & Hu & Htr & Hafter).
        destruct after as [|x after _] using rev_ind; [done|].
        rewrite app_comm_cons, app_assoc in Heq.
        apply app_inj_tail in Heq as [-> ->].
        apply Forall_app in Hafter as [Hafter Ht].
        split; [|by inversion Ht].
        by exists before, t0, after. }
    assert ((∃ before t0 after,
              tools ++ [t] = before ++ t0 :: after ∧
              Py.lower (default "" (tool_name t0)) = k ∧
              tool_uuid t0 = Some u ∧ Py.truthy (Some u) = true ∧
              Forall (λ t', Py.lower (default "" (tool_name t')) = k →
                            Py.truthy (tool_uuid t') = false) after) ↔
            (Py.lower (default "" (tool_name t)) = k ∧ tool_uuid t = Some u ∧
             Py.truthy (Some u) = true) ∨
            (m !! k = Some u ∧ (Py.lower (default "" (tool_name t)) = k →
                                Py.truthy (tool_uuid t) = false))) as ->.
    { rewrite Hold. split.
      - intros (before & t0 & after & Heq & Hk & Hu & Htr & Hafter).
        destruct after as [|x after _] using rev_ind.
        + apply app_inj_tail in Heq as [_ ->]. by left.
        + right. exists before, t0, (after ++ [x]).
          split; [done|]. split; [by destruct after|]. done.
      - intros [(Hk & Hu & Htr)|(before & t0 & after & Heq & _ & H)].
        + exists tools, t, []. by repeat split.
        + by exists before, t0, after. }
    destruct (tool_uuid t) as [uuid|] eqn:Huuid.
    + destruct (Py.truthy (Some uuid)) eqn:Htruthy.
      * destruct (decide (Py.lower (default "" (tool_name t)) = k)) as [Hk|Hk].
        -- rewrite Hk, lookup_insert_eq. split.
           ++ intros [= ->]. by left.
           ++ intros [(_ & [= ->] & _)|[_ H]]; [done|]. discriminate (H eq_refl).
        -- rewrite lookup_insert_ne by done. split.
           ++ intros Hm. right. by split.
           ++ intros [(? & _)|[Hm _]]; done.
      * split.
        -- intros Hm. by right.
        -- intros [(_ & [= ->] & Htr)|[Hm _]]; [congruence|done].
    + split.
      * intros Hm. by right.
      * intros [(_ & ? & _)|[Hm _]]; done.
Qed.

Lemma get_tools_last_uuid_wins_witness :
  ∃ tool_uuids,
    get_tools three_tools_api 0 = (Done tool_uuids, [Call GetTools true]) ∧
    tool_uuids !! "sonarc#" = Some "u2" ∧ tool_uuids !! "eslint" = None.
Proof.
  destruct (get_tools_last_uuid_wins three_tools_api 0 _ eq_refl)
    as (tool_uuids & Hrun & Hlookup).
  exists tool_uuids. split; [exact Hrun|]. split.
  - apply Hlookup.
    exists [Tool (Some "SonarC#") (Some "u1"); Tool (Some "ESLint") (Some "")],
      (Tool (Some "sonarc#") (Some "u2")), [].
    by repeat split.
  - injection Hrun as <-. by vm_compute.
Defined.

End Tools.

Section DisableAll.
Import Importer.

Lemma requests_app t t' : requests (t ++ t') = requests t ++ requests t'.
Proof. unfold requests. apply omap_app. Qed.

Lemma disable_tool_requests a sid u n :
  ∃ t, _disable_tool a sid u n = (Done tt, t) ∧
       requests t = [PatchTool sid u false []].
Proof.
  unfold _disable_tool. rewrite bind_unfold. unfold call at 1.
  destruct (patch_of a n sid u false []); simpl; eauto.
Qed.

Lemma for_each_disable_requests a sid (tools : list (option string)) n :
  ∃ t,
    for_each tools (λ uuid,
      match uuid with
      | Some tool_uuid =>
          if Py.truthy uuid then _disable_tool a sid tool_uuid else mret tt
      | None => mret tt
      end) n = (Done tt, t) ∧
    requests t =
      (λ u, PatchTool sid u false []) <$> filter (λ u, u ≠ "") (omap id tools).
Proof.
  revert n. induction tools as [|uuid tools IH]; intros n.
  - by exists [].
  - cbn [for_each]. rewrite bind_unfold.
    assert (∃ t0,
      match uuid with
      | Some tool_uuid =>
          if Py.truthy uuid then _disable_tool a sid tool_uuid else mret tt
      | None => mret tt
      end n = (Done tt, t0) ∧
      requests t0 =
        (λ u, PatchTool sid u false []) <$>
          filter (λ u, u ≠ "") (from_option (λ u, [u]) [] uuid))
      as (t0 & -> & Ht0).
    { destruct uuid as [u|]; [|by exists []].
      destruct (decide (u = "")) as [->|Hu]; [by exists []|].
      assert (Py.truthy (Some u) = true) as ->.
      { simpl. by destruct (String.eqb_spec u ""). }
      destruct (disable_tool_requests a sid u n) as (t0 & Hrun & Hreq).
      exists t0. split; [done|]. rewrite Hreq. cbn [from_option].
      rewrite filter_cons. by destruct (decide (u ≠ "")). }
    destruct (IH (n + calls t0)) as (t & -> & Ht).
    exists (t0 ++ t). split; [done|].
    rewrite requests_app, Ht0, Ht.
    destruct uuid as [u|]; [|done].
    change (omap id (Some u :: tools)) with (u :: omap id tools).
    cbn [from_option]. rewrite !filter_cons, filter_nil.
    by destruct (decide (u ≠ "")).
Qed.

(** X15. When the listing of the tools of the standard succeeds,
    [disable_all_tools] ends normally and has sent, after the listing,
    one disabling PATCH with an empty pattern list for every tool with a
    non-empty uuid, in the order of the listing, whether or not the
    PATCHes before it succeeded. *)
Theorem disable_all_tools_attempts_every_tool a sid n tools :
  standard_tools_of a n sid = Ok tools →
  ∃ t,
    disable_all_tools a sid n = (Done tt, t) ∧
    requests t =
      GetStandardTools sid ::
      ((λ u, PatchTool sid u false []) <$> filter (λ u, u ≠ "") (omap id tools)).
Proof.
  intros Htools. unfold disable_all_tools. rewrite bind_unfold. unfold call at 1.
  rewrite Htools. cbn [is_ok].
  destruct (for_each_disable_requests a sid tools (n + calls [Call (GetStandardTools sid) true]))
    as (t & -> & Ht).
  exists (Call (GetStandardTools sid) true :: t). split; [done|].
  cbn [requests omap list_omap]. by fold (requests t); rewrite Ht.
Qed.

Lemma disable_all_tools_attempts_every_tool_witness :
  ∃ t,
    disable_all_tools three_tools_api "42" 0 = (Done tt, t) ∧
    Call (PatchTool "42" "u1" false []) false ∈ t ∧
    requests t =
      [GetStandardTools "42"; PatchTool "42" "u1" false [];
       PatchTool "42" "u2" false []].
Proof.
  destruct (disable_all_tools_attempts_every_tool three_tools_api "42" 0 _ eq_refl)
    as (t & Hrun & Hreq).
  exists t. split; [exact Hrun|]. split; [|exact Hreq].
  injection Hrun as <-. apply list_elem_of_further, list_elem_of_here.
Defined.

End DisableAll.

Section Create.
Import Importer.

Lemma get_unique_standard_name_run a base n :
  ∃ name t,
    _get_unique_standard_name a base n = (Done name, t) ∧
    requests t = [GetStandards] ∧ calls t = 1 ∧
    match standards_of a n with
    | Ok names => (name ∉ names) ∧ (base ∉ names → name = base)
    | Failed => name = base
    end.
Proof.
  unfold _get_unique_standard_name. rewrite bind_unfold. unfold call at 1.
  destruct (standards_of a n) as [names|] eqn:Hnames; cbn [is_ok].
  - destruct (unique_name_spec base (list_to_set names)) as (name & -> & Hfresh & Hcases).
    rewrite elem_of_list_to_set in Hfresh.
    exists name, [Call GetStandards true]. repeat split; [done|].
    intros Hbase. destruct Hcases as [[_ ->]|[Hin _]]; [done|].
    by rewrite elem_of_list_to_set in Hin.
  - by exists base,
      [Call GetStandards false; Log "Warning: Could not check existing standard names"].
Qed.

(** X14. [create_coding_standard] always ends after two requests, the
    listing of the standards and one creating POST. The name it posts is
    none of the listed names when the listing succeeded, and the requested
    name when the listing failed; the run exits with status 1 when the
    POST fails and returns the id of the answer otherwise. *)
Theorem create_coding_standard_posts_a_free_name a base n :
  ∃ name,
    requests (create_coding_standard a base n).2 = [GetStandards; PostStandard name] ∧
    (create_coding_standard a base n).1 =
      match create_of a (S n) name with
      | Ok standard_id => Done standard_id
      | Failed => Exit 1
      end ∧
    match standards_of a n with
    | Ok names => (name ∉ names) ∧ (base ∉ names → name = base)
    | Failed => name = base
    end.
Proof.
  destruct (get_unique_standard_name_run a base n) as (name & t & Hrun & Hreq & Hcalls & Hname).
  exists name.
  assert (∃ t',
    create_coding_standard a base n =
      (match create_of a (S n) name with
       | Ok standard_id => Done standard_id
       | Failed => Exit 1
       end, t ++ t') ∧
    requests t' = [PostStandard name]) as (t' & -> & Ht').
  { unfold create_coding_standard. rewrite bind_unfold, Hrun, Hcalls.
    rewrite bind_unfold. unfold call at 1. replace (n + 1) with (S n) by lia.
    destruct (create_of a (S n) name); simpl; eauto. }
  simpl. by rewrite requests_app, Hreq, Ht'.
Qed.

End Create.

Section Confined.
Import Importer.

Lemma elem_of_bind_trace_l {A B} (m : M A) (f : A → M B) n e :
  e ∈ (m n).2 → e ∈ ((m ≫= f) n).2.
Proof.
  intros He. rewrite bind_unfold. destruct (m n) as [[a|s| |] t]; simpl in *; try done.
  destruct (f a (n + calls t)) as [r t']. simpl. apply elem_of_app. by left.
Qed.

Lemma elem_of_bind_trace_r {A B} (m : M A) (f : A → M B) n a t1 e :
  m n = (Done a, t1) → e ∈ (f a (n + calls t1)).2 → e ∈ ((m ≫= f) n).2.
Proof.
  intros Hm He. rewrite bind_unfold, Hm.
  destruct (f a (n + calls t1)) as [r t']. simpl in *. apply elem_of_app. by right.
Qed.

Lemma confined_bind {A B} sid (m : M A) (f : A → M B) :
  confined sid m → (∀ a, confined sid (f a)) → confined sid (m ≫= f).
Proof.
  intros Hm Hf n r ok s He Hs.
  apply elem_of_bind_trace in He as [He|(a & t1 & _ & He)].
  - by apply (Hm n r ok).
  - by apply (Hf a (n + calls t1) r ok).
Qed.

Lemma confined_silent {A} sid (m : M A) :
  (∀ n r ok, Call r ok ∈ (m n).2 → standard_of r = None) → confined sid m.
Proof. intros Hm n r ok s He Hs. apply Hm in He. congruence. Qed.

Lemma confined_ret {A} sid (a : A) : confined sid (mret a).
Proof. apply confined_silent. intros n r ok He. by apply elem_of_nil in He. Qed.

Lemma confined_exit {A} sid s : confined sid (@exit A s).
Proof. apply confined_silent. intros n r ok He. by apply elem_of_nil in He. Qed.

Lemma confined_diverge {A} sid : confined sid (@diverge A).
Proof. apply confined_silent. intros n r ok He. by apply elem_of_nil in He. Qed.

Lemma confined_print sid line : confined sid (print line).
Proof.
  apply confined_silent. intros n r ok He. simpl in He.
  by apply list_elem_of_singleton in He.
Qed.

Lemma confined_call {A B} sid req (answer : nat → http A) (f : http A → M B) :
  from_option (λ s, s = sid) True (standard_of req) →
  (∀ x, confined sid (f x)) →
  confined sid (call req answer ≫= f).
Proof.
  intros Hreq Hf. apply confined_bind; [|done].
  intros n r ok s He Hs. simpl in He. apply list_elem_of_singleton in He as [= -> _].
  by rewrite Hs in Hreq.
Qed.

Lemma confined_for_each {A} sid (l : list A) body :
  (∀ x, confined sid (body x)) → confined sid (for_each l body).
Proof.
  intros Hbody. induction l as [|x l IH]; simpl.
  - apply confined_ret.
  - apply confined_bind; [apply Hbody|]. by intros _.
Qed.

Lemma confined_paginate sid a uuid keep warning fuel cur all :
  confined sid (paginate a uuid keep warning fuel cur all).
Proof.
  apply confined_silent. intros n r ok He.
  apply paginate_events in He as [(c & ok' & [= -> _])|(line & [=])]. done.
Qed.

Lemma confined_disable_all_tools a sid : confined sid (disable_all_tools a sid).
Proof.
  apply confined_call; [done|]. intros [tools|].
  - apply confined_for_each. intros [uuid|]; [|apply confined_ret].
    destruct (Py.truthy (Some uuid)); [|apply confined_ret].
    apply confined_call; [done|]. intros [[]|].
    + apply confined_ret.
    + apply confined_bind; [apply confined_print|]. intros _. apply confined_ret.
  - apply confined_bind; [apply confined_print|]. intros _. apply confined_exit.
Qed.

Lemma confined_enable_tools a fuel tool_uuids sid items count :
  confined sid (enable_tools a fuel tool_uuids sid items count).
Proof.
  revert count. induction items as [|[tool_name patterns] items IH]; intros count;
    cbn [enable_tools].
  - apply confined_ret.
  - destruct (tool_uuids !! Py.lower tool_name) as [uuid|]; [|apply IH].
    destruct (Py.truthy (Some uuid)); [|apply IH].
    apply confined_bind; [|intros success; apply IH].
    apply confined_bind; [apply confined_paginate|].
    intros all. apply confined_call; [done|]. intros [[]|].
    + apply confined_ret.
    + apply confined_bind; [apply confined_print|]. intros _. apply confined_ret.
Qed.

Lemma confined_after_create a fuel rules tool_uuids sid :
  confined sid
    (disable_all_tools a sid;;
     enable_sonar_rules a fuel rules tool_uuids sid;;
     promote_coding_standard a sid;;
     _generate_output_files a fuel rules;;
     available_patterns ← _get_available_patterns a fuel;
     mret (length rules,
           length (filter (λ r, pattern_id_of (key r) ∈ available_patterns) rules))).
Proof.
  apply confined_bind; [apply confined_disable_all_tools|]. intros _.
  apply confined_bind.
  { apply confined_bind; [|intros ?; apply confined_enable_tools].
    apply confined_bind; [apply confined_paginate|]. intros ?. apply confined_ret. }
  intros _. apply confined_bind.
  { apply confined_call; [done|]. intros [[]|].
    - apply confined_ret.
    - apply confined_bind; [apply confined_print|]. intros _. apply confined_exit. }
  intros _. apply confined_bind.
  { apply confined_bind; [apply confined_paginate|]. intros ?. apply confined_ret. }
  intros _. apply confined_bind; [apply confined_paginate|]. intros ?. apply confined_ret.
Qed.

Lemma create_coding_standard_Done a name n sid t :
  create_coding_standard a name n = (Done sid, t) →
  ∃ final k, Call (PostStandard final) true ∈ t ∧ create_of a k final = Ok sid.
Proof.
  unfold create_coding_standard. intros Hrun.
  apply bind_inv in Hrun as [(final & t1 & t2 & _ & Hpost & ->)|(r0 & _ & Hstop)];
    [|by destruct r0].
  rewrite bind_unfold in Hpost. unfold call at 1 in Hpost.
  destruct (create_of a (n + calls t1) final) as [id|] eqn:Hcreate; simpl in Hpost; [|done].
  injection Hpost as <- <-. exists final, (n + calls t1). split; [|done].
  apply elem_of_app. right. apply list_elem_of_here.
Qed.

Lemma get_tools_silent a n r ok :
  Call r ok ∈ (get_tools a n).2 → standard_of r = None.
Proof.
  unfold get_tools. rewrite bind_unfold. unfold call at 1.
  destruct (tools_of a n); simpl.
  - by intros [= -> _]%list_elem_of_singleton.
  - intros He. apply elem_of_cons in He as [[= -> _]|He]; [done|].
    by apply list_elem_of_singleton in He.
Qed.

Lemma create_coding_standard_silent a name n r ok :
  Call r ok ∈ (create_coding_standard a name n).2 → standard_of r = None.
Proof.
  intros He. destruct (standard_of r) as [s|] eqn:Hs; [|done].
  assert (confined "" (create_coding_standard a name)
          ∧ confined "x" (create_coding_standard a name)) as [H1 H2].
  { split.
    all: apply confined_bind;
      [apply confined_call; [done|]; intros [names|];
       [destruct (unique_name _ _); [apply confined_ret|apply confined_diverge]
       |apply confined_bind; [apply confined_print|]; intros _; apply confined_ret]
      |intros final; apply confined_call; [done|]; intros [id|];
       [apply confined_ret
       |apply confined_bind; [apply confined_print|]; intros _; apply confined_exit]]. }
  pose proof (H1 n r ok s He Hs). pose proof (H2 n r ok s He Hs). congruence.
Qed.

Lemma run_confined a fuel name xml n r ok s :
  Call r ok ∈ (run a fuel name xml n).2 → standard_of r = Some s →
  ∃ final k,
    Call (PostStandard final) true ∈ (run a fuel name xml n).2 ∧
    create_of a k final = Ok s.
Proof.
  intros He Hs. unfold run in *.
  destruct (parse_sonar_xml xml n) as [rp tp] eqn:Hparse.
  assert (∀ e, e ∈ tp → ∃ line, e = Log line) as Hlogs.
  { destruct xml as [| |root]; simpl in Hparse.
    - injection Hparse as <- <-. intros e ->%list_elem_of_singleton. eauto.
    - injection Hparse as <- <-. intros e ->%list_elem_of_singleton. eauto.
    - destruct (mapM _ _); injection Hparse as <- <-; intros e []%elem_of_nil. }
  pose proof He as He0.
  apply elem_of_bind_trace in He as [He|(rules & t0 & Hparse' & He)].
  { rewrite Hparse in He. apply Hlogs in He as [line [=]]. }
  rewrite Hparse in Hparse'. injection Hparse' as -> ->.
  apply elem_of_bind_trace in He as [He|(tool_uuids & t1 & Htools & He)].
  { apply get_tools_silent in He. congruence. }
  apply elem_of_bind_trace in He as [He|(sid & t2 & Hcreate & He)].
  { apply create_coding_standard_silent in He. congruence. }
  pose proof (confined_after_create a fuel rules tool_uuids sid _ r ok s He Hs) as ->.
  destruct (create_coding_standard_Done _ _ _ _ _ Hcreate) as (final & k & Hin & Hk).
  exists final, k. split; [|done].
  eapply elem_of_bind_trace_r; [exact Hparse|].
  eapply elem_of_bind_trace_r; [exact Htools|].
  apply elem_of_bind_trace_l. by rewrite Hcreate.
Qed.

(** X16. The importer configures no standard but the one it has created:
    every request of a run that names a coding standard (the listing of
    its tools, a PATCH of a tool, the promotion) names the id that the
    platform returned for a creating POST of the same run. *)
Theorem import_configures_only_the_created_standard a fuel name xml r ok s :
  Call r ok ∈ (main a fuel name xml).2 → standard_of r = Some s →
  ∃ final k,
    Call (PostStandard final) true ∈ (main a fuel name xml).2 ∧
    create_of a k final = Ok s.
Proof.
  intros He Hs.
  assert (∀ e, e ∈ (run a fuel name xml 0).2 → e ∈ (main a fuel name xml).2) as Hsub.
  { intros e. unfold main. destruct (run a fuel name xml 0) as [[x|st| |] t]; simpl; try done.
    intros H. apply elem_of_app. by left. }
  assert (Call r ok ∈ (run a fuel name xml 0).2) as Hrun.
  { revert He. unfold main. destruct (run a fuel name xml 0) as [[x|st| |] t]; simpl; try done.
    intros [H|[=]%list_elem_of_singleton]%elem_of_app. done. }
  destruct (run_confined _ _ _ _ _ _ _ _ Hrun Hs) as (final & k & Hin & Hk).
  exists final, k. split; [by apply Hsub|done].
Qed.

Lemma import_configures_only_the_created_standard_witness :
  Call (PostPromote "42") true
    ∈ (main steady_api 3 "Imported Sonar Rules" (Parsed sample_profile)).2 ∧
  ∃ final k,
    Call (PostStandard final) true
      ∈ (main steady_api 3 "Imported Sonar Rules" (Parsed sample_profile)).2 ∧
    create_of steady_api k final = Ok "42".
Proof.
  assert (Call (PostPromote "42") true
    ∈ (main steady_api 3 "Imported Sonar Rules" (Parsed sample_profile)).2) as Hin.
  { apply list_elem_of_lookup_2 with 8. by vm_compute. }
  split; [exact Hin|].
  exact (import_configures_only_the_created_standard _ _ _ _ _ _ _ Hin eq_refl).
Defined.

Lemma elem_of_steps s t :
  s ∈ steps t ↔ ∃ r ok, Call r ok ∈ t ∧ step_of r = Some s.
Proof.
  unfold steps. rewrite list_elem_of_omap. split.
  - intros ([r ok|line] & He & Hs); [|done]. by exists r, ok.
  - intros (r & ok & He & Hs). by exists (Call r ok).
Qed.

Lemma calm_fatal_ok t r ok :
  calm t = true → Call r ok ∈ t → fatal r = true → ok = true.
Proof.
  intros Hcalm He Hfatal. destruct ok; [done|].
  apply list_elem_of_lookup_1 in He as [i Hi].
  destruct (calm_lookup t i r Hcalm Hi) as [Hr _]. congruence.
Qed.

(** X17. What exit status 0 of the importer means: the creating POST was
    answered with the id of a new standard, the promoting POST for this
    very standard succeeded, and none of the calls whose failure is fatal
    has failed. *)
Theorem status_zero_means_created_and_promoted a fuel name xml :
  (main a fuel name xml).1 = Some 0 →
  ∃ final k sid,
    create_of a k final = Ok sid ∧
    Call (PostStandard final) true ∈ (main a fuel name xml).2 ∧
    Call (PostPromote sid) true ∈ (main a fuel name xml).2 ∧
    ∀ r ok, Call r ok ∈ (main a fuel name xml).2 → fatal r = true → ok = true.
Proof.
  destruct xml as [| |root]; [by intros [=]|by intros [=]|].
  destruct (mapM parse_rule (Xml.findall_descendants "rule" root)) as [rules|] eqn:Hrules.
  2:{ unfold main, run. rewrite bind_unfold. unfold parse_sonar_xml. rewrite Hrules.
      by intros [=]. }
  pose proof (run_parsed a fuel name root rules 0 Hrules) as Heq.
  pose proof (passes_after_parse a fuel name rules Promote ltac:(set_solver) 0) as Hpass.
  pose proof (behaves_after_parse a fuel name rules 0) as Hsettled.
  rewrite <- Heq in Hpass, Hsettled. clear Heq.
  pose proof (run_confined a fuel name (Parsed root) 0) as Hconfined.
  unfold main. destruct (run a fuel name (Parsed root) 0) as [[x|st| |] t];
    cbn [fst snd settled] in *; [|by destruct Hsettled as [-> _]; intros [=]|by intros [=]..].
  - intros _. specialize (Hpass x t eq_refl).
    apply elem_of_steps in Hpass as (r & ok & He & Hstep).
    assert (ok = true) as ->.
    { apply (calm_fatal_ok t r); [done|done|]. by destruct r as [| | | |? ? []| |]. }
    destruct r as [| | | |? ? []| |sid]; try done.
    destruct (Hconfined _ _ _ He eq_refl) as (final & k & Hpost & Hk).
    exists final, k, sid. split; [exact Hk|]. split; [exact Hpost|]. split; [exact He|].
    intros r ok. by apply calm_fatal_ok.
Qed.

Lemma status_zero_means_created_and_promoted_witness :
  (main steady_api 3 "Imported Sonar Rules" (Parsed sample_profile)).1 = Some 0 ∧
  ∃ final k sid,
    create_of steady_api k final = Ok sid ∧
    Call (PostStandard final) true
      ∈ (main steady_api 3 "Imported Sonar Rules" (Parsed sample_profile)).2 ∧
    Call (PostPromote sid) true
      ∈ (main steady_api 3 "Imported Sonar Rules" (Parsed sample_profile)).2.
Proof.
  assert ((main steady_api 3 "Imported Sonar Rules" (Parsed sample_profile)).1 = Some 0)
    as Hstatus by (by vm_compute).
  split; [exact Hstatus|].
  destruct (status_zero_means_created_and_promoted _ _ _ _ Hstatus)
    as (final & k & sid & Hk & Hpost & Hpromote & _).
  exists final, k, sid. split; [exact Hk|]. split; [exact Hpost|exact Hpromote].
Defined.

End Confined.

Section Parsing.
Import Importer.

Lemma dict_set_keys {K V} `{EqDecision K} (d : list (K * V)) k v :
  (dict_set d k v).*1 = if decide (k ∈ d.*1) then d.*1 else d.*1 ++ [k].
Proof.
  induction d as [|[k' v'] d IH]; [done|]. cbn [dict_set].
  destruct (decide (k = k')) as [->|Hne]; rewrite !fmap_cons; cbn [fst].
  - rewrite decide_True; [done|]. apply list_elem_of_here.
  - rewrite IH. destruct (decide (k ∈ d.*1)) as [Hin|Hout].
    + rewrite decide_True; [done|]. by apply list_elem_of_further.
    + rewrite decide_False; [done|]. intros [?|?]%elem_of_cons; done.
Qed.

Lemma dict_set_NoDup {K V} `{EqDecision K} (d : list (K * V)) k v :
  NoDup d.*1 → NoDup (dict_set d k v).*1.
Proof.
  intros Hd. rewrite dict_set_keys. destruct (decide (k ∈ d.*1)); [done|].
  apply NoDup_app. split; [done|]. split; [|apply NoDup_singleton].
  intros x Hx ->%list_elem_of_singleton. done.
Qed.

Lemma elem_of_dict_set {K V} `{EqDecision K} (d : list (K * V)) k v k' v' :
  NoDup d.*1 →
  (k', v') ∈ dict_set d k v ↔ (k' = k ∧ v' = v) ∨ (k' ≠ k ∧ (k', v') ∈ d).
Proof.
  induction d as [|[k1 v1] d IH]; simpl; intros Hd.
  - rewrite list_elem_of_singleton. split.
    + intros [= -> ->]. by left.
    + intros [[-> ->]|[_ []%elem_of_nil]]. done.
  - apply NoDup_cons in Hd as [Hk1 Hd]. specialize (IH Hd).
    destruct (decide (k = k1)) as [->|Hne].
    + rewrite !elem_of_cons. split.
      * intros [[= -> ->]|Hin]; [by left|]. right. split; [|by right].
        intros ->. apply Hk1. apply list_elem_of_fmap. by exists (k1, v').
      * intros [[-> ->]|[Hk [[= -> ->]|Hin]]]; [by left|done|by right].
    + rewrite !elem_of_cons, IH. split.
      * intros [[= -> ->]|[[-> ->]|[Hk Hin]]].
        -- right. split; [done|by left].
        -- by left.
        -- right. split; [done|by right].
      * intros [[-> ->]|[Hk [[= -> ->]|Hin]]].
        -- right. by left.
        -- by left.
        -- right. right. done.
Qed.

(** One round of the loop over the [<parameter>] elements. *)
Lemma parse_parameters_snoc (l : list Xml.element) (p : Xml.element) :
  foldl (λ acc param,
           d ← acc;
           param_key ← Xml.find "key" param;
           param_value ← Xml.find "value" param;
           Some (dict_set d (Xml.text param_key) (Xml.text param_value)))
        (Some []) (l ++ [p]) =
  (d ← foldl (λ acc param,
           d ← acc;
           param_key ← Xml.find "key" param;
           param_value ← Xml.find "value" param;
           Some (dict_set d (Xml.text param_key) (Xml.text param_value)))
        (Some []) l;
   param_key ← Xml.find "key" p;
   param_value ← Xml.find "value" p;
   Some (dict_set d (Xml.text param_key) (Xml.text param_value))).
Proof. by rewrite foldl_app. Qed.

Lemma parse_parameters_fold (l : list Xml.element) d :
  foldl (λ acc param,
           d ← acc;
           param_key ← Xml.find "key" param;
           param_value ← Xml.find "value" param;
           Some (dict_set d (Xml.text param_key) (Xml.text param_value)))
        (Some []) l = Some d →
  NoDup d.*1 ∧
  ∀ k v, (k, v) ∈ d ↔
    ∃ before param after key_element value_element,
      l = before ++ param :: after ∧
      Xml.find "key" param = Some key_element ∧ Xml.text key_element = k ∧
      Xml.find "value" param = Some value_element ∧ Xml.text value_element = v ∧
      Forall (λ p, Xml.text <$> Xml.find "key" p ≠ Some k) after.
Proof.
  revert d. induction l as [|p l IH] using rev_ind; intros d.
  - intros [= <-]. split; [constructor|]. intros k v. split.
    + by intros ?%elem_of_nil.
    + intros (before & ? & ? & ? & ? & Heq & _). by destruct before.
  - rewrite parse_parameters_snoc.
    destruct (foldl _ (Some []) l) as [d0|]; [|done]. simpl.
    destruct (Xml.find "key" p) as [ke|] eqn:Hke; [|done]. simpl.
    destruct (Xml.find "value" p) as [ve|] eqn:Hve; [|done]. simpl.
    intros [= <-]. destruct (IH d0 eq_refl) as [Hnodup Hmem].
    split; [by apply dict_set_NoDup|].
    intros k v. rewrite elem_of_dict_set by done. rewrite Hmem. split.
    + intros [[-> ->]|[Hk (before & param & after & ke' & ve' & -> & Hk' & <- & Hv' & <- & Hafter)]].
      * exists l, p, [], ke, ve. by repeat split.
      * exists before, param, (after ++ [p]), ke', ve'.
        split; [by rewrite <- app_assoc|]. repeat (split; [done|]).
        apply Forall_app. split; [done|]. constructor; [|done].
        rewrite Hke. simpl. congruence.
    + intros (before & param & after & ke' & ve' & Heq & Hk' & <- & Hv' & <- & Hafter).
      destruct after as [|x after _] using rev_ind.
      * apply app_inj_tail in Heq as [_ ->]. left.
        rewrite Hke in Hk'. rewrite Hve in Hv'. by injection Hk' as <-; injection Hv' as <-.
      * rewrite app_comm_cons, app_assoc in Heq. apply app_inj_tail in Heq as [-> ->].
        apply Forall_app in Hafter as [Hafter Hx].
        apply Forall_inv in Hx. cbv beta in Hx. rewrite Hke in Hx. simpl in Hx.
        right. split; [congruence|].
        by exists before, param, after, ke', ve'.
Qed.

(** X12. The parameters of a parsed rule form a dict: no key occurs twice,
    and a key holds the value of the last [<parameter>] element of the
    first [<parameters>] child that sets it. *)
Theorem parse_parameters_last_value_wins rule params d :
  Xml.find "parameters" rule = Some params →
  parse_parameters rule = Some d →
  NoDup d.*1 ∧
  ∀ k v, (k, v) ∈ d ↔
    ∃ before param after key_element value_element,
      Xml.findall "parameter" params = before ++ param :: after ∧
      Xml.find "key" param = Some key_element ∧ Xml.text key_element = k ∧
      Xml.find "value" param = Some value_element ∧ Xml.text value_element = v ∧
      Forall (λ p, Xml.text <$> Xml.find "key" p ≠ Some k) after.
Proof.
  intros Hparams. unfold parse_parameters. rewrite Hparams.
  apply parse_parameters_fold.
Qed.

Lemma parse_parameters_last_value_wins_witness :
  parse_parameters twice_set_rule
    = Some [(Some "max", Some "7"); (Some "min", Some "1")] ∧
  NoDup [(Some "max", Some "7"); (Some "min", Some "1")].*1.
Proof.
  assert (parse_parameters twice_set_rule
    = Some [(Some "max", Some "7"); (Some "min", Some "1")]) as Hparse
    by (by vm_compute).
  split; [exact Hparse|].
  exact (proj1 (parse_parameters_last_value_wins twice_set_rule _ _ eq_refl Hparse)).
Defined.

End Parsing.

Section Incomplete.
Import Importer.

Lemma parse_parameters_fold_is_Some (l : list Xml.element) :
  is_Some (foldl (λ acc param,
           d ← acc;
           param_key ← Xml.find "key" param;
           param_value ← Xml.find "value" param;
           Some (dict_set d (Xml.text param_key) (Xml.text param_value)))
        (Some []) l) ↔
  Forall complete_parameter l.
Proof.
  induction l as [|p l IH] using rev_ind.
  - split; [constructor|by eexists].
  - rewrite parse_parameters_snoc, Forall_app, Forall_singleton, <- IH.
    unfold complete_parameter.
    destruct (foldl _ (Some []) l) as [d0|]; simpl.
    + destruct (Xml.find "key" p), (Xml.find "value" p); simpl;
        split; try (intros [_ [[? [=]] [? [=]]]]); try (intros [? [=]]);
        try (intros [_ [[? [=]] _]]); try (intros [_ [_ [? [=]]]]); eauto.
    + split; [intros [? [=]]|intros [[? [=]] _]].
Qed.

Lemma parse_rule_is_Some rule : is_Some (parse_rule rule) ↔ complete_rule rule.
Proof.
  unfold parse_rule, complete_rule, parse_parameters.
  destruct (Xml.find "repositoryKey" rule); simpl;
    [|split; [intros [? [=]]|intros [[? [=]] _]]].
  destruct (Xml.find "key" rule); simpl;
    [|split; [intros [? [=]]|intros (_ & [? [=]] & _)]].
  destruct (Xml.find "priority" rule); simpl;
    [|split; [intros [? [=]]|intros (_ & _ & [? [=]] & _)]].
  destruct (Xml.find "parameters" rule) as [params|]; simpl.
  - pose proof (parse_parameters_fold_is_Some (Xml.findall "parameter" params)) as Hfold.
    destruct (foldl _ (Some []) (Xml.findall "parameter" params)) as [d|]; simpl.
    + split; [|by eexists]. intros _. repeat (split; [by eexists|]).
      intros ? [= <-]. apply Hfold. by eexists.
    + split; [intros [? [=]]|]. intros (_ & _ & _ & Hall).
      destruct (proj2 Hfold (Hall _ eq_refl)) as [? [=]].
  - split; [|by eexists]. intros _. repeat (split; [by eexists|]). by intros ? [=].
Qed.

Lemma get_tools_first {B} a (f : gmap string string → M B) n :
  ∃ ok t, ((get_tools a ≫= f) n).2 = Call GetTools ok :: t.
Proof.
  rewrite bind_unfold. unfold get_tools. rewrite bind_unfold. unfold call at 1.
  destruct (tools_of a n); simpl.
  - destruct (f _ _). simpl. eauto.
  - eauto.
Qed.

(** X11. The importer reads a document exactly when every [<rule>]
    element below the root is complete, and then parses one rule for each
    of them; an incomplete rule element anywhere in the document makes the
    importer end with status 1 and the line for an unexpected error,
    without a single request sent. *)
Theorem incomplete_rule_stops_the_import a fuel name root :
  let rules := Xml.findall_descendants "rule" root in
  (Forall complete_rule rules ↔
   ∃ parsed, ∀ n,
     parse_sonar_xml (Parsed root) n = (Done parsed, []) ∧
     length parsed = length rules) ∧
  (Exists (λ rule, ¬ complete_rule rule) rules ↔
   main a fuel name (Parsed root) = (Some 1, [Log "Unexpected error"])).
Proof.
  intros rules.
  assert (Forall complete_rule rules ↔ is_Some (mapM parse_rule rules)) as Hall.
  { rewrite mapM_is_Some. apply Forall_proper; [|done]. intros r. simpl.
    by rewrite parse_rule_is_Some. }
  split.
  - rewrite Hall. unfold parse_sonar_xml. fold rules. split.
    + intros [parsed Hparsed]. exists parsed. intros n. rewrite Hparsed.
      split; [done|]. symmetry. by eapply length_mapM.
    + intros [parsed Hrun]. destruct (Hrun 0) as [H0 _].
      destruct (mapM parse_rule rules); [by eexists|done].
  - split.
    + intros Hex. unfold main, run. rewrite bind_unfold.
      unfold parse_sonar_xml. fold rules.
      destruct (mapM parse_rule rules) as [parsed|] eqn:Hparsed; [|done].
      exfalso. assert (Forall complete_rule rules) as Hforall by (apply Hall; by eexists).
      apply Exists_exists in Hex as (r & Hr & Hbad).
      rewrite Forall_forall in Hforall. by apply Hbad, Hforall.
    + intros Hmain.
      destruct (mapM parse_rule rules) as [parsed|] eqn:Hparsed.
      * exfalso. unfold main in Hmain.
        rewrite (run_parsed a fuel name root parsed 0 Hparsed) in Hmain.
        destruct (get_tools_first a
          (λ tool_uuids,
             standard_id ← create_coding_standard a name;
             disable_all_tools a standard_id;;
             enable_sonar_rules a fuel parsed tool_uuids standard_id;;
             promote_coding_standard a standard_id;;
             _generate_output_files a fuel parsed;;
             available_patterns ← _get_available_patterns a fuel;
             mret (length parsed,
                   length (filter (λ r, pattern_id_of (key r) ∈ available_patterns)
                             parsed))) 0) as (ok & t & Ht).
        match type of Ht with
        | (?m).2 = _ => destruct m as [[x|st| |] t0]
        end; simpl in Ht; subst t0; done.
      * apply mapM_None_1 in Hparsed.
        eapply Exists_impl; [exact Hparsed|]. intros r Hr Hcomplete. simpl in Hr.
        apply parse_rule_is_Some in Hcomplete as [? Hsome]. congruence.
Qed.

End Incomplete.

Section RoundTrip.

Lemma replace_go_length_le old skip s :
  String.length (Py.replace_go old "" skip s) ≤ String.length s.
Proof.
  revert skip. induction s as [|c s IH]; intros skip; [done|].
  cbn [Py.replace_go String.length]. destruct skip as [|skip].
  - destruct (String.prefix old (String c s)).
    + change ("" +:+ ?x) with x. specialize (IH (String.length old - 1)). lia.
    + cbn [String.length]. specialize (IH 0). lia.
  - specialize (IH skip). lia.
Qed.

Lemma replace_go_shrinks old s :
  old ≠ "" → occurs old s = true →
  String.length (Py.replace_go old "" 0 s) < String.length s.
Proof.
  intros Hold. induction s as [|c s IH]; intros Hocc.
  - cbn [occurs] in Hocc. destruct old; [done|]. done.
  - cbn [occurs] in Hocc. cbn [Py.replace_go String.length].
    destruct (String.prefix old (String c s)) eqn:Hprefix.
    + change ("" +:+ ?x) with x.
      pose proof (replace_go_length_le old (String.length old - 1) s). lia.
    + cbn [String.length]. simpl in Hocc. apply IH in Hocc. lia.
Qed.

(** X3. The pattern id the importer builds for a rule key and the rule
    key the reconciling scripts read from a pattern id are inverse to each
    other exactly for the keys in which the prefix does not occur. *)
Theorem pattern_id_round_trip key :
  rule_key_of (Importer.pattern_id_of (Some key)) = Some key ↔
  occurs PREFIX key = false.
Proof.
  split; [|by intros Hocc; apply rule_key_of_single_prefix].
  unfold Importer.pattern_id_of, rule_key_of, Py.startswith. cbn [Py.str default].
  rewrite prefix_app. intros [= Hkey].
  destruct (occurs PREFIX key) eqn:Hocc; [exfalso|done].
  unfold Py.replace in Hkey.
  rewrite replace_go_prefix in Hkey by (unfold PREFIX; discriminate).
  change ("" +:+ ?x) with x in Hkey.
  assert (String.length (Py.replace_go PREFIX "" 0 key) < String.length key) as Hlt
    by (apply replace_go_shrinks; [unfold PREFIX; discriminate|done]).
  rewrite Hkey in Hlt. lia.
Qed.

(** X10. A rule of the XML whose pattern the standard lists as enabled
    under the id the importer builds is counted as matching by
    [verify_coding_standard.py], not as missing, and the success rate is
    positive, provided the prefix does not occur in the rule key. *)
Theorem enabled_import_is_verified root patterns k :
  occurs PREFIX k = false →
  k ∈ xml_rule_keys root →
  Pattern (Some (Importer.pattern_id_of (Some k))) true ∈ patterns →
  ∃ r q,
    VerifyCodingStandard.main root (Ok patterns) = Some (r, q) ∧
    k ∈ matching r ∧ (k ∉ missing r) ∧ (0 < q)%Q.
Proof.
  intros Hocc Hxml Hpattern.
  assert (k ∈ VerifyCodingStandard.get_enabled_patterns_in_standard (Ok patterns)) as Henabled.
  { unfold VerifyCodingStandard.get_enabled_patterns_in_standard.
    rewrite elem_of_sorted, list_elem_of_omap.
    exists (Pattern (Some (Importer.pattern_id_of (Some k))) true).
    split; [done|]. simpl. by apply rule_key_of_single_prefix. }
  assert (k ∈ VerifyCodingStandard.get_xml_rules root) as Hrule
    by (by apply elem_of_sorted).
  set (r := reconcile (VerifyCodingStandard.get_xml_rules root)
              (VerifyCodingStandard.get_enabled_patterns_in_standard (Ok patterns))).
  assert (k ∈ matching r) as Hmatching.
  { unfold r. simpl. rewrite elem_of_intersection, !elem_of_list_to_set. done. }
  assert (0 < size (matching r)) as Hsize.
  { destruct (decide (size (matching r) = 0)) as [Hzero|]; [|lia].
    apply size_empty_inv in Hzero. by apply Hzero in Hmatching. }
  assert (0 < xml_total r) as Htotal.
  { unfold r. simpl. destruct (VerifyCodingStandard.get_xml_rules root); [|simpl; lia].
    by apply elem_of_nil in Hrule. }
  unfold VerifyCodingStandard.main, VerifyCodingStandard.success_rate,
    VerifyCodingStandard.truediv. fold r.
  destruct (xml_total r) as [|b] eqn:Hb; [exfalso; lia|]. cbn [mbind option_bind].
  eexists _, _. split; [reflexivity|]. split; [done|]. split.
  - unfold r. simpl. rewrite elem_of_difference, !elem_of_list_to_set. tauto.
  - unfold Qlt. cbn [Qnum Qden Qmult]. lia.
Qed.

Lemma enabled_import_is_verified_witness :
  "S2" ∈ xml_rule_keys sample_profile ∧
  ∃ r q,
    VerifyCodingStandard.main sample_profile
      (Ok [Pattern (Some "SonarCSharp_S1") false; Pattern (Some "SonarCSharp_S2") true])
      = Some (r, q) ∧
    "S2" ∈ matching r ∧ ("S2" ∉ missing r) ∧ (0 < q)%Q.
Proof.
  assert ("S2" ∈ xml_rule_keys sample_profile) as Hxml.
  { apply (bool_decide_unpack _). by vm_compute. }
  split; [exact Hxml|].
  apply (enabled_import_is_verified sample_profile _ "S2"); [reflexivity|exact Hxml|].
  apply list_elem_of_further, list_elem_of_here.
Defined.

End RoundTrip.

Section Endless.

Lemma page_calls_cons uuid resp i count :
  page_calls uuid resp i (S count) =
  Call (GetPatterns uuid (sent_cursor resp i)) (is_ok (resp i))
    :: page_calls uuid resp (S i) count.
Proof. done. Qed.

Lemma paginate_endless_from a uuid keep warning (resp : nat → http page) n0 :
  (∀ k, patterns_of a (n0 + k) uuid (sent_cursor resp k) = resp k) →
  (∀ k, last_page (resp k) = false) →
  ∀ fuel i cur all,
    (if Py.truthy cur then cur else None) = sent_cursor resp i →
    paginate a uuid keep warning fuel cur all (n0 + i) =
      (Diverge, page_calls uuid resp i fuel).
Proof.
  intros Hresp Hnever. induction fuel as [|fuel IH]; intros i cur all Hcur; [done|].
  cbn [paginate]. rewrite bind_unfold. unfold call. rewrite Hcur, Hresp.
  rewrite page_calls_cons.
  pose proof (Hnever i) as Hi.
  destruct (resp i) as [pg|] eqn:Hpage; simpl in Hi; [|done].
  apply negb_false_iff in Hi. cbn [is_ok]. rewrite Hi.
  change (calls [Call (GetPatterns uuid (sent_cursor resp i)) true]) with 1.
  replace (n0 + i + 1) with (n0 + S i) by lia.
  rewrite (IH (S i)); [done|]. simpl. by rewrite Hi, Hpage.
Qed.

(** X2. No pagination loop of the repository gives up by itself: on a
    platform that answers every request of the loop with a page that
    carries a cursor, the loop is still running after any number of
    requests, every one of them answered. *)
Theorem paginate_runs_while_cursors_come a uuid keep warning n0 :
  (∀ k, last_page (answers a uuid n0 k) = false) →
  ∀ fuel,
    paginate a uuid keep warning fuel None ∅ n0 =
      (Diverge, page_calls uuid (answers a uuid n0) 0 fuel) ∧
    calls (page_calls uuid (answers a uuid n0) 0 fuel) = fuel ∧
    Forall (λ e, ∃ c, e = Call (GetPatterns uuid c) true)
           (page_calls uuid (answers a uuid n0) 0 fuel).
Proof.
  intros Hnever fuel.
  pose proof (paginate_endless_from a uuid keep warning (answers a uuid n0) n0
                (answers_unfold a uuid n0) Hnever fuel 0 None ∅ eq_refl) as Hrun.
  rewrite Nat.add_0_r in Hrun. split; [done|].
  unfold page_calls, calls. split.
  - clear Hrun. generalize 0. induction fuel as [|fuel IH]; intros i; [done|].
    cbn [seq fmap list_fmap]. rewrite filter_cons_True by done.
    cbn [length]. f_equal. apply IH.
  - apply Forall_fmap, Forall_forall. intros k _. simpl.
    pose proof (Hnever k) as Hk. destruct (answers a uuid n0 k); [|done]. eauto.
Qed.

Lemma paginate_runs_while_cursors_come_witness :
  GetDefaultPatterns.get_all_sonarc_patterns endless_api 3 0 =
    (Diverge,
     [Call (GetPatterns SONAR_UUID None) true;
      Call (GetPatterns SONAR_UUID (Some "next")) true;
      Call (GetPatterns SONAR_UUID (Some "next")) true]).
Proof.
  exact (proj1 (paginate_runs_while_cursors_come endless_api SONAR_UUID keep_rule_key
                  "Error retrieving patterns" 0
                  (λ k, match k with O => eq_refl | S _ => eq_refl end) 3)).
Defined.

End Endless.

Section Sequence.
Import Importer.

Lemma writes_app t t' : writes (t ++ t') = writes t ++ writes t'.
Proof. unfold writes. by rewrite requests_app, filter_app. Qed.

Lemma calls_requests t : calls t = length (requests t).
Proof.
  unfold calls, requests. induction t as [|[r ok|line] t IH]; [done|..].
  - rewrite filter_cons_True by done. cbn [omap list_omap length].
    by rewrite IH.
  - rewrite filter_cons_False by (simpl; auto). cbn [omap list_omap]. exact IH.
Qed.

Lemma steps_writes t : steps t = omap step_of (writes t).
Proof.
  unfold steps, writes, requests. induction t as [|[r ok|line] t IH]; [done|..].
  - cbn [omap list_omap]. rewrite filter_cons.
    destruct (step_of r) as [s|] eqn:Hs.
    + rewrite decide_True by (by eexists). cbn [omap list_omap]. rewrite Hs.
      f_equal. exact IH.
    + rewrite decide_False by (by intros [? [=]]). exact IH.
  - cbn [omap list_omap]. exact IH.
Qed.

Lemma writes_patterns_only uuid t :
  (∀ e, e ∈ t → (∃ c ok, e = Call (GetPatterns uuid c) ok) ∨ ∃ line, e = Log line) →
  writes t = [].
Proof.
  unfold writes, requests. induction t as [|e t IH]; intros Ht; [done|].
  destruct (Ht e ltac:(left)) as [(c & ok & ->)|(line & ->)].
  - cbn [omap list_omap]. rewrite filter_cons_False by (by intros [? [=]]).
    apply IH. intros e' He'. apply Ht. by right.
  - cbn [omap list_omap]. apply IH. intros e' He'. apply Ht. by right.
Qed.

Lemma paginate_writes a uuid keep warning fuel cur all n :
  writes (paginate a uuid keep warning fuel cur all n).2 = [].
Proof. apply (writes_patterns_only uuid). intros e. apply paginate_events. Qed.

Lemma get_available_patterns_writes a fuel n r t :
  _get_available_patterns a fuel n = (r, t) → writes t = [].
Proof.
  intros Hrun.
  pose proof (paginate_writes a SONAR_UUID keep_id
                "Warning: Could not retrieve available patterns" fuel None ∅ n) as Hw.
  unfold _get_available_patterns in Hrun. by rewrite Hrun in Hw.
Qed.

Lemma get_tools_Done a n tool_uuids t :
  get_tools a n = (Done tool_uuids, t) →
  t = [Call GetTools true] ∧
  ∀ k u, tool_uuids !! k = Some u → Py.truthy (Some u) = true.
Proof.
  unfold get_tools. rewrite bind_unfold. unfold call at 1.
  destruct (tools_of a n) as [tools|]; [|done]. cbn [is_ok]. intros [= <- <-].
  split; [done|].
  assert (∀ m0 : gmap string string,
            (∀ k u, m0 !! k = Some u → Py.truthy (Some u) = true) →
            ∀ k u,
              foldl (λ (tool_uuids : gmap string string) t,
                       match tool_uuid t with
                       | Some uuid =>
                           if Py.truthy (Some uuid)
                           then <[Py.lower (default "" (tool_name t)) := uuid]> tool_uuids
                           else tool_uuids
                       | None => tool_uuids
                       end) m0 tools !! k = Some u →
              Py.truthy (Some u) = true) as Hfold.
  { induction tools as [|t tools IH]; intros m0 Hm0; [exact Hm0|].
    cbn [foldl]. apply IH.
    destruct (tool_uuid t) as [uuid|]; [|exact Hm0].
    destruct (Py.truthy (Some uuid)) eqn:Huuid; [|exact Hm0].
    intros k u. destruct (decide (Py.lower (default "" (tool_name t)) = k)) as [->|Hk].
    - rewrite lookup_insert_eq. by intros [= <-].
    - rewrite lookup_insert_ne by done. apply Hm0. }
  apply Hfold. intros k u. by rewrite lookup_empty.
Qed.

Lemma create_coding_standard_requests a name n sid t :
  create_coding_standard a name n = (Done sid, t) →
  ∃ final, create_of a (S n) final = Ok sid ∧
           requests t = [GetStandards; PostStandard final] ∧
           Call (PostStandard final) true ∈ t.
Proof.
  destruct (get_unique_standard_name_run a name n) as (final & t0 & Hrun & Hreq & Hcalls & _).
  unfold create_coding_standard. rewrite bind_unfold, Hrun, Hcalls.
  rewrite bind_unfold. unfold call at 1. replace (n + 1) with (S n) by lia.
  destruct (create_of a (S n) final) as [id|] eqn:Hcreate; simpl; [|done].
  intros [= <- <-]. exists final. split; [done|]. split.
  - by rewrite requests_app, Hreq.
  - apply elem_of_app. right. apply list_elem_of_here.
Qed.

Lemma disable_all_tools_Done a sid n t :
  disable_all_tools a sid n = (Done tt, t) →
  ∃ tools,
    standard_tools_of a n sid = Ok tools ∧
    requests t =
      GetStandardTools sid ::
      ((λ u, PatchTool sid u false []) <$> filter (λ u, u ≠ "") (omap id tools)).
Proof.
  unfold disable_all_tools. rewrite bind_unfold. unfold call at 1.
  destruct (standard_tools_of a n sid) as [tools|] eqn:Htools; [|done]. cbn [is_ok].
  destruct (for_each_disable_requests a sid tools (n + calls [Call (GetStandardTools sid) true]))
    as (t' & -> & Ht').
  intros [= <-]. exists tools. split; [done|].
  cbn [requests omap list_omap]. by fold (requests t'); rewrite Ht'.
Qed.

Lemma promote_coding_standard_Done a sid n t :
  promote_coding_standard a sid n = (Done tt, t) → t = [Call (PostPromote sid) true].
Proof.
  unfold promote_coding_standard. rewrite bind_unfold. unfold call at 1.
  destruct (promote_of a n sid) as [[]|]; simpl; [|done]. by intros [= <-].
Qed.

Lemma enable_sonar_rules_writes a fuel rules tool_uuids sid n count t :
  enable_sonar_rules a fuel rules tool_uuids sid n = (Done count, t) →
  ∃ available,
    (_get_available_patterns a fuel n).1 = Done available ∧
    ((∃ u pats, writes t = [PatchTool sid u true pats] ∧
                tool_uuids !! "sonarc#" = Some u ∧ Py.truthy (Some u) = true ∧
                filter (matched available) rules ≠ []) ∨
     (writes t = [] ∧
      (tool_uuids !! "sonarc#" = None ∨
       (∃ u, tool_uuids !! "sonarc#" = Some u ∧ Py.truthy (Some u) = false) ∨
       filter (matched available) rules = []))).
Proof.
  intros Hrun.
  apply bind_inv in Hrun as [(tool_patterns & t1 & t2 & Hmap & Htools & ->)|(r0 & _ & Hstop)];
    [|by destruct r0].
  apply bind_inv in Hmap as [(available & t0 & t0' & Havailable & Hret & ->)|(r0 & _ & Hstop)];
    [|by destruct r0].
  injection Hret as <- <-. rewrite app_nil_r in *.
  exists available. split; [by rewrite Havailable|].
  rewrite writes_app, (get_available_patterns_writes _ _ _ _ _ Havailable), app_nil_l.
  rewrite map_rules_tool_dict in Htools.
  destruct (filter (matched available) rules) as [|r rs] eqn:Hmatched; simpl in Htools.
  { rewrite map_to_list_empty in Htools. injection Htools as <- <-.
    right. split; [done|]. by right; right. }
  rewrite map_to_list_singleton in Htools. cbn [enable_tools] in Htools.
  change (Py.lower "SonarC#") with "sonarc#" in Htools.
  destruct (tool_uuids !! "sonarc#") as [uuid|].
  2:{ simpl in Htools. injection Htools as <- <-. right. split; [done|]. by left. }
  destruct (Py.truthy (Some uuid)) eqn:Huuid.
  2:{ simpl in Htools. injection Htools as <- <-. right. split; [done|].
      right; left. by exists uuid. }
  apply bind_inv in Htools as [(success & t3 & t4 & Hpatch & Hret & ->)|(r0 & _ & Hstop)];
    [|by destruct r0].
  injection Hret as <- <-. rewrite app_nil_r.
  apply bind_inv in Hpatch as [(all & t5 & t6 & Hall & Hsend & ->)|(r0 & _ & Hstop)];
    [|by destruct r0].
  left. eexists uuid, _. split; [|done].
  rewrite writes_app.
  pose proof (paginate_writes a uuid keep_id
                "Warning: Could not retrieve all patterns for tool" fuel None ∅
                (n + calls t0)) as Hw.
  unfold _get_all_tool_patterns in Hall. rewrite Hall in Hw. simpl in Hw.
  rewrite Hw, app_nil_l.
  rewrite bind_unfold in Hsend. unfold call in Hsend.
  destruct (patch_of a _ sid uuid true _) as [[]|]; simpl in Hsend;
    injection Hsend as <- <-; reflexivity.
Qed.

Lemma writes_bind_silent {A B} (m : M A) (f : A → M B) n :
  writes (m n).2 = [] → (∀ x n', writes (f x n').2 = []) →
  writes ((m ≫= f) n).2 = [].
Proof.
  intros Hm Hf. rewrite bind_unfold. destruct (m n) as [[x|s| |] t]; simpl in *; try done.
  specialize (Hf x (n + calls t)). destruct (f x (n + calls t)) as [r t']. simpl in *.
  by rewrite writes_app, Hm, Hf.
Qed.

Lemma writes_disabling sid (uuids : list string) :
  filter (λ r, is_Some (step_of r)) ((λ u, PatchTool sid u false []) <$> uuids) =
  (λ u, PatchTool sid u false []) <$> uuids.
Proof.
  induction uuids as [|u uuids IH]; [done|].
  cbn [fmap list_fmap]. rewrite filter_cons_True by (by eexists).
  f_equal. exact IH.
Qed.

(** A run that gets through: what it has sent. *)
Lemma after_parse_Done a fuel name rules x t :
  (tool_uuids ← get_tools a;
   standard_id ← create_coding_standard a name;
   disable_all_tools a standard_id;;
   enable_sonar_rules a fuel rules tool_uuids standard_id;;
   promote_coding_standard a standard_id;;
   _generate_output_files a fuel rules;;
   available_patterns ← _get_available_patterns a fuel;
   mret (length rules,
         length (filter (λ r, pattern_id_of (key r) ∈ available_patterns) rules))) 0
    = (Done x, t) →
  ∃ tool_uuids final sid tools available enabling,
    get_tools a 0 = (Done tool_uuids, [Call GetTools true]) ∧
    create_of a 2 final = Ok sid ∧
    standard_tools_of a 3 sid = Ok tools ∧
    (_get_available_patterns a fuel
       (4 + length (filter (λ u, u ≠ "") (omap id tools)))).1 = Done available ∧
    writes t =
      PostStandard final ::
      ((λ u, PatchTool sid u false []) <$> filter (λ u, u ≠ "") (omap id tools)) ++
      enabling ++ [PostPromote sid] ∧
    ((∃ u pats, enabling = [PatchTool sid u true pats] ∧
                tool_uuids !! "sonarc#" = Some u ∧
                filter (matched available) rules ≠ []) ∨
     (enabling = [] ∧
      (tool_uuids !! "sonarc#" = None ∨ filter (matched available) rules = []))) ∧
    Call (PostStandard final) true ∈ t ∧ Call (PostPromote sid) true ∈ t.
Proof.
  intros H.
  apply bind_inv in H as [(tool_uuids & t1 & ta & Htools & H & ->)|(r0 & _ & Hstop)];
    [|by destruct r0].
  destruct (get_tools_Done _ _ _ _ Htools) as [-> Htruthy].
  change (0 + calls [Call GetTools true]) with 1 in H.
  apply bind_inv in H as [(sid & t2 & tb & Hcreate & H & ->)|(r0 & _ & Hstop)];
    [|by destruct r0].
  destruct (create_coding_standard_requests _ _ _ _ _ Hcreate)
    as (final & Hfinal & Hreq2 & Hposted).
  rewrite calls_requests, Hreq2 in H. change (1 + length _) with 3 in H.
  apply bind_inv in H as [([] & t3 & tc & Hdisable & H & ->)|(r0 & _ & Hstop)];
    [|by destruct r0].
  destruct (disable_all_tools_Done _ _ _ _ Hdisable) as (tools & Hlisted & Hreq3).
  rewrite calls_requests, Hreq3 in H. cbn [length] in H. rewrite length_fmap in H.
  replace (3 + S (length (filter (λ u, u ≠ "") (omap id tools))))
    with (4 + length (filter (λ u, u ≠ "") (omap id tools))) in H by lia.
  apply bind_inv in H as [(count & t4 & td & Henable & H & ->)|(r0 & _ & Hstop)];
    [|by destruct r0].
  destruct (enable_sonar_rules_writes _ _ _ _ _ _ _ _ Henable)
    as (available & Havailable & Henabling).
  apply bind_inv in H as [([] & t5 & t6 & Hpromote & H & ->)|(r0 & _ & Hstop)];
    [|by destruct r0].
  apply promote_coding_standard_Done in Hpromote as ->.
  assert (writes t6 = []) as Hquiet.
  { match type of H with
    | ?m ?n = _ => assert (writes (m n).2 = []) as Hw; [|by rewrite H in Hw]
    end.
    apply writes_bind_silent.
    - apply writes_bind_silent; [apply paginate_writes|done].
    - intros _ n'. apply writes_bind_silent; [apply paginate_writes|done]. }
  exists tool_uuids, final, sid, tools, available, (writes t4).
  split; [done|]. split; [done|]. split; [done|]. split; [done|]. split; [|split; [|split]].
  - rewrite !writes_app, Hquiet, app_nil_r.
    change (writes [Call GetTools true]) with (@nil request). rewrite app_nil_l.
    unfold writes at 1 2. rewrite Hreq2, Hreq3.
    rewrite (filter_cons_False _ GetStandards) by (by intros [? [=]]).
    rewrite (filter_cons_True _ (PostStandard final)) by (by eexists).
    rewrite filter_nil.
    rewrite (filter_cons_False _ (GetStandardTools sid)) by (by intros [? [=]]).
    rewrite writes_disabling. reflexivity.
  - destruct Henabling as [(u & pats & Hw & Hu & _ & Hmatched)|[Hw Hnone]].
    + left. by exists u, pats.
    + right. split; [done|]. destruct Hnone as [Hnone|[(u & Hu & Hfalse)|Hnone]].
      * by left.
      * apply Htruthy in Hu. congruence.
      * by right.
  - apply elem_of_app. right. apply elem_of_app. by left.
  - rewrite !elem_of_app. do 4 right. left. apply list_elem_of_here.
Qed.

(** C7, amended. In every run of the importer the POST and PATCH calls
    of the configuration occur in the order create, disable, enable,
    promote: no call of a later step precedes a call of an earlier one. A
    run that ends with status 0 has sent exactly these, in this order: the
    creating POST, answered with the id of the new standard; one disabling
    PATCH for every tool with a uuid that the new standard lists; one
    enabling PATCH for the SonarC# tool when the platform knows that tool
    and some rule is matched, and none otherwise; the promoting POST for
    the new standard, answered. It may thus have sent no disabling and no
    enabling call at all. *)
Theorem configuration_steps_in_order a fuel name xml :
  let status := (main a fuel name xml).1 in
  let t := (main a fuel name xml).2 in
  (∀ i j s s', i < j → steps t !! i = Some s → steps t !! j = Some s' →
               rank s ≤ rank s') ∧
  (status = Some 0 →
   ∃ rules tool_uuids final sid tools available enabling,
     parse_sonar_xml xml 0 = (Done rules, []) ∧
     get_tools a 0 = (Done tool_uuids, [Call GetTools true]) ∧
     create_of a 2 final = Ok sid ∧
     standard_tools_of a 3 sid = Ok tools ∧
     (_get_available_patterns a fuel
        (4 + length (filter (λ u, u ≠ "") (omap id tools)))).1 = Done available ∧
     writes t =
       PostStandard final ::
       ((λ u, PatchTool sid u false []) <$> filter (λ u, u ≠ "") (omap id tools)) ++
       enabling ++ [PostPromote sid] ∧
     ((∃ u pats, enabling = [PatchTool sid u true pats] ∧
                 tool_uuids !! "sonarc#" = Some u ∧
                 filter (matched available) rules ≠ []) ∨
      (enabling = [] ∧
       (tool_uuids !! "sonarc#" = None ∨ filter (matched available) rules = []))) ∧
     Call (PostStandard final) true ∈ t ∧ Call (PostPromote sid) true ∈ t).
Proof.
  intros status t. subst status t.
  destruct xml as [| |root].
  1-2: simpl; split; [by intros [|i] j|by intros [=]].
  destruct (mapM parse_rule (Xml.findall_descendants "rule" root)) as [rules|] eqn:Hrules.
  2:{ unfold main, run. rewrite bind_unfold. unfold parse_sonar_xml. rewrite Hrules.
      simpl. split; [by intros [|i] j|by intros [=]]. }
  assert (parse_sonar_xml (Parsed root) 0 = (Done rules, [])) as Hparse
    by (unfold parse_sonar_xml; by rewrite Hrules).
  unfold main. rewrite (run_parsed _ _ _ _ rules) by done.
  pose proof (between_after_parse a fuel name rules 0) as [_ Hsorted].
  pose proof (behaves_after_parse a fuel name rules 0) as Hsettled.
  pose proof (after_parse_Done a fuel name rules) as Hdone.
  match type of Hsorted with StronglySorted _ (ranks (?x).2) =>
    destruct x as [r t] end.
  cbn [fst snd] in Hsorted, Hsettled.
  assert (∀ i j s s', i < j → steps t !! i = Some s → steps t !! j = Some s' →
                      rank s ≤ rank s') as Horder.
  { intros i j s s' Hij Hi Hj.
    apply (StronglySorted_lookup_le (ranks t) i j); [done|done| |].
    - unfold ranks. by rewrite list_lookup_fmap, Hi.
    - unfold ranks. by rewrite list_lookup_fmap, Hj. }
  destruct r as [x|s| |]; cbn [fst snd settled] in *.
  - split; [exact Horder|]. intros _.
    destruct (Hdone x t eq_refl)
      as (tool_uuids & final & sid & tools & available & enabling & H).
    by exists rules, tool_uuids, final, sid, tools, available, enabling.
  - split; [exact Horder|]. destruct Hsettled as [-> _]. by intros [=].
  - done.
  - split; [exact Horder|]. by intros [=].
Qed.

(** C7 fails as the spec states it. On a platform that knows the
    SonarC# tool and offers the pattern of the rule, the run for an export
    whose only rule comes from an unmapped repository ends with status 0
    and has sent no enabling call; on a platform whose new standard lists
    no tool and that offers no pattern, a run ends with status 0 after the
    creating and the promoting POST alone. *)
Lemma completed_run_without_disable_or_enable :
  ((main steady_api 3 "Imported Sonar Rules" (Parsed foreign_profile)).1 = Some 0 ∧
   writes (main steady_api 3 "Imported Sonar Rules" (Parsed foreign_profile)).2
     = [PostStandard "Imported Sonar Rules"; PatchTool "42" "u1" false [];
        PostPromote "42"] ∧
   steps (main steady_api 3 "Imported Sonar Rules" (Parsed foreign_profile)).2
     = [Create; DisableAll; Promote]) ∧
  ((main named_api 3 "Imported Sonar Rules" (Parsed sample_profile)).1 = Some 0 ∧
   writes (main named_api 3 "Imported Sonar Rules" (Parsed sample_profile)).2
     = [PostStandard "Imported Sonar Rules (2)"; PostPromote "42"] ∧
   steps (main named_api 3 "Imported Sonar Rules" (Parsed sample_profile)).2
     = [Create; Promote]).
Proof. by vm_compute. Qed.

(** A run that goes through all four steps. *)
Example completed_run_with_all_steps :
  (main steady_api 3 "Imported Sonar Rules" (Parsed sample_profile)).1 = Some 0 ∧
  writes (main steady_api 3 "Imported Sonar Rules" (Parsed sample_profile)).2
    = [PostStandard "Imported Sonar Rules"; PatchTool "42" "u1" false [];
       PatchTool "42" "u1" true
         [PatternConfig "SonarCSharp_S2" true None;
          PatternConfig "SonarCSharp_S1" false None];
       PostPromote "42"] ∧
  steps (main steady_api 3 "Imported Sonar Rules" (Parsed sample_profile)).2
    = [Create; DisableAll; EnableSelected; Promote].
Proof. by vm_compute. Qed.

End Sequence.
